(** * The job scheduler: repeating job definitions and their next instance

    A shallow embedding of [src/classes/job-scheduler.ts] (class
    [JobScheduler], function [defaultRepeatStrategy]) and of the enums of
    [src/enums/telemetry-attributes.ts] it uses.

    Conventions of the embedding.
    - Every number the scheduler handles is an integral count of
      milliseconds or of iterations; it is a [Z].  On that domain (inside
      the range of [Date], 8.64e15 ms either side of the epoch) the
      arithmetic of the program is exact, [Math.floor (a / b)] is [a / b]
      on [Z], and [new Date(t).getTime()] is [t].  A date option
      ([startDate], [endDate]) is kept as its time value.
    - An optional property is an [option]; [None] is [undefined].
    - Conditions of the program are JavaScript truthiness tests; they are
      the [truthy] functions below.
    - The program reads the wall clock, writes to the console, talks to the
      store and throws: it runs in the monad [M] over a [World]. *)

From stdpp Require Import gmap strings list pretty.
From Stdlib Require Import ZArith Lia.

#[local] Open Scope string_scope.
#[local] Open Scope Z_scope.

(** ** JavaScript truthiness *)

Class Truthy (A : Type) := truthy : A -> bool.

#[global] Instance truthy_number : Truthy Z := fun n => negb (Z.eqb n 0).
#[global] Instance truthy_string : Truthy string :=
  fun s => negb (String.eqb s EmptyString).
#[global] Instance truthy_boolean : Truthy bool := fun b => b.
#[global] Instance truthy_optional {A} `{Truthy A} : Truthy (option A) :=
  fun o => match o with Some a => truthy a | None => false end.

(** [x || d] on an optional number. *)
Definition orElse (o : option Z) (d : Z) : Z :=
  match o with
  | Some n => if truthy n then n else d
  | None => d
  end.

(** ** Options and records *)

(** Modelled from the spec: the interface [RepeatOptions], declared outside
    the sources, with the properties the scheduler reads or writes: the
    interval form ([every], [offset]), the pattern form ([pattern], [tz]),
    [immediately], and the common [startDate], [endDate], [limit], [count].
    [key] and [prevMillis] are excluded by the parameter type of
    [upsertJobScheduler]. *)
Record RepeatOptions := mkRepeatOptions {
  pattern : option string;
  every : option Z;
  offset : option Z;
  immediately : option bool;
  startDate : option Z;
  endDate : option Z;
  limit : option Z;
  count : option Z;
  tz : option string
}.

(** The value of [telemetry.metadata]: the expression
    [metadata || (!omitContext && src)] is a string or [false]. *)
Inductive Metadata :=
| MetaString (s : string)
| MetaFalse.

#[global] Instance truthy_metadata : Truthy Metadata :=
  fun m => match m with MetaString s => truthy s | MetaFalse => false end.

Record Telemetry := mkTelemetry {
  metadata : option Metadata;
  omitContext : option bool
}.

(** Modelled from the spec: the type [JobsOptions], declared outside the
    sources, with the fields the scheduler writes on an instance.  The
    template options handed to [upsertJobScheduler] have the same shape
    ([jobId], [repeat], [delay] left out); the properties the scheduler
    never looks at travel in [others]. *)
Record JobsOptions := mkJobsOptions {
  jobId : option string;
  delay : option Z;
  timestamp : option Z;
  prevMillis : option Z;
  repeatJobKey : option string;
  repeat : option RepeatOptions;
  telemetry : option Telemetry;
  others : list (string * string)
}.

(** Job payloads. *)
#[warnings="-register-all"] Inductive Json :=
| JNull
| JBool (b : bool)
| JNumber (n : Z)
| JString (s : string)
| JArray (items : list Json)
| JObject (members : list (string * Json)).

(** enums/telemetry-attributes.ts *)
Inductive SpanKind := INTERNAL | SERVER | CLIENT | PRODUCER | CONSUMER.

Definition SpanKind_value (k : SpanKind) : Z :=
  match k with
  | INTERNAL => 0 | SERVER => 1 | CLIENT => 2 | PRODUCER => 3 | CONSUMER => 4
  end.

Module TelemetryAttributes.
Definition JobId : string := "bullmq.job.id".
Definition JobSchedulerId : string := "bullmq.job.scheduler.id".
End TelemetryAttributes.

(** Modelled from the spec: the class [Job], declared outside the
    sources.  A job object holds what
    [new this.Job(this, name, data, mergedOpts, jobId)] is given. *)
Record Job := mkJob {
  job_name : string;
  job_data : option Json;
  job_opts : JobsOptions;
  job_id : option string
}.

(** The last argument of [scripts.addJobScheduler]. *)
Record SchedulerTemplate := mkSchedulerTemplate {
  st_name : string;
  st_endDate : option Z;
  st_tz : option string;
  st_pattern : option string;
  st_every : option Z
}.

(** The commands the scheduler queues on a MULTI pipeline. *)
Inductive Command :=
| AddJobScheduler (jobSchedulerId : string) (nextMillis : Z)
    (data : Json) (opts : JobsOptions) (template : SchedulerTemplate)
| UpdateJobSchedulerNextMillis (jobSchedulerId : string) (nextMillis : Z)
| AddJob (job : Job).

(** ** The store *)

Record SchedulerDefinition := mkSchedulerDefinition {
  def_template : SchedulerTemplate;
  def_data : Json;
  def_opts : JobsOptions
}.

(** The sorted set of scheduler ids by next fire time, the definition
    hashes and the delayed jobs. *)
Record Store := mkStore {
  index : gmap string Z;
  definitions : gmap string SchedulerDefinition;
  delayedJobs : gmap string Job
}.

Definition emptyStore : Store := mkStore ∅ ∅ ∅.

(** One reply of [multi.exec()]: the pair [[err, result]]. *)
Definition Reply : Type := option string * option string.

(** ** The world and the monad *)

(** The wall clock: its successive readings, and how many were taken. *)
Record Clock := mkClock {
  readings : nat -> Z;
  reads : nat
}.

Inductive StoreEvent :=
| ClientAwaited
| Executed (commands : list Command).

Record Span := mkSpan {
  span_kind : SpanKind;
  span_name : string;
  span_attributes : list (string * option string)
}.

Record World := mkWorld {
  clock : Clock;
  console : list string;
  events : list StoreEvent;
  store : Store;
  spans : list Span
}.

Inductive Outcome (A : Type) :=
| Ok (a : A)
| Throw (message : string).
Arguments Ok {A} a.
Arguments Throw {A} message.

Definition M (A : Type) : Type := World -> Outcome A * World.

Definition ret {A} (a : A) : M A := fun w => (Ok a, w).

Definition throw {A} (message : string) : M A := fun w => (Throw message, w).

Definition bind {A B} (m : M A) (f : A -> M B) : M B :=
  fun w =>
    match m w with
    | (Ok a, w') => f a w'
    | (Throw e, w') => (Throw e, w')
    end.

Notation "x <- m ;; k" := (bind m (fun x => k))
  (at level 100, m at next level, right associativity).
Notation "m ;;; k" := (bind m (fun _ => k))
  (at level 100, right associativity).

Definition withClock (w : World) (c : Clock) : World :=
  mkWorld c (console w) (events w) (store w) (spans w).

Definition withWarning (w : World) (message : string) : World :=
  mkWorld (clock w) (console w ++ [message]) (events w) (store w) (spans w).

Definition withEvent (w : World) (e : StoreEvent) : World :=
  mkWorld (clock w) (console w) (events w ++ [e]) (store w) (spans w).

Definition withStore (w : World) (s : Store) : World :=
  mkWorld (clock w) (console w) (events w) s (spans w).

Definition withSpan (w : World) (sp : Span) : World :=
  mkWorld (clock w) (console w) (events w) (store w) (spans w ++ [sp]).

(** [Date.now()] and [new Date().getTime()]. *)
Definition tick (c : Clock) : Clock := mkClock (readings c) (S (reads c)).

Definition reading (c : Clock) : Z := readings c (reads c).

Definition Date_now : M Z :=
  fun w => (Ok (reading (clock w)), withClock w (tick (clock w))).

Definition console_warn (message : string) : M unit :=
  fun w => (Ok tt, withWarning w message).

(** [await this.client]. *)
Definition await_client : M unit :=
  fun w => (Ok tt, withEvent w ClientAwaited).

(** ** The store scripts, the pipeline and the tracer *)

(** Modelled from the spec: the script [addJobScheduler] of the [Scripts]
    class, which is not among the sources.  It writes or overwrites the
    definition hash of the id and upserts the id with its next fire time
    into the index; it creates no instance. *)
Definition addJobSchedulerScript (s : Store) (jobSchedulerId : string)
    (nextMillis : Z) (data : Json) (opts : JobsOptions)
    (template : SchedulerTemplate) : Reply * Store :=
  ((None, None),
   mkStore (<[jobSchedulerId := nextMillis]> (index s))
     (<[jobSchedulerId := mkSchedulerDefinition template data opts]>
        (definitions s))
     (delayedJobs s)).

(** Modelled from the spec: the script [updateJobSchedulerNextMillis] of
    the [Scripts] class, which is not among the sources.  It moves the
    score of the id in the index; an absent id is left absent. *)
Definition updateJobSchedulerNextMillisScript (s : Store)
    (jobSchedulerId : string) (nextMillis : Z) : Reply * Store :=
  match index s !! jobSchedulerId with
  | Some _ =>
      ((None, None),
       mkStore (<[jobSchedulerId := nextMillis]> (index s)) (definitions s)
         (delayedJobs s))
  | None => ((None, None), s)
  end.

(** Modelled from the spec: the enqueuer behind [Job.addJob], which is not
    among the sources.  It inserts the job in the delayed set under its id
    and replies with that id; an id already there is rejected, not
    overwritten.  (Every job of this file carries its id.) *)
Definition addJobScript (s : Store) (job : Job) : Reply * Store :=
  match job_id job with
  | Some id =>
      match delayedJobs s !! id with
      | Some _ => ((Some ("Error: job " +:+ id +:+ " already exists"), None), s)
      | None =>
          ((None, Some id),
           mkStore (index s) (definitions s) (<[id := job]> (delayedJobs s)))
      end
  | None => ((Some "Error: job without id", None), s)
  end.

Definition runCommand (s : Store) (c : Command) : Reply * Store :=
  match c with
  | AddJobScheduler id nextMillis data opts template =>
      addJobSchedulerScript s id nextMillis data opts template
  | UpdateJobSchedulerNextMillis id nextMillis =>
      updateJobSchedulerNextMillisScript s id nextMillis
  | AddJob job => addJobScript s job
  end.

Fixpoint runCommands (s : Store) (cs : list Command) : list Reply * Store :=
  match cs with
  | [] => ([], s)
  | c :: cs' =>
      let '(r, s1) := runCommand s c in
      let '(rs, s2) := runCommands s1 cs' in
      (r :: rs, s2)
  end.

Definition errored (r : Reply) : bool :=
  match fst r with Some _ => true | None => false end.

(** Modelled from the spec: [multi.exec()] of the store client.  The queued
    commands run as one unit and every command yields one [[err, result]]
    pair; when a command reports an error the transaction aborts as a whole
    and no partial state is visible. *)
Definition multi_exec (multi : list Command) : M (list Reply) :=
  fun w =>
    let '(replies, s') := runCommands (store w) multi in
    (Ok replies,
     withStore (withEvent w (Executed multi))
       (if existsb errored replies then store w else s')).

(** [span?.setAttributes(attributes)]. *)
Definition setAttributes (span : option Span)
    (attributes : list (string * option string)) : M unit :=
  fun w =>
    match span with
    | Some sp =>
        (Ok tt, withSpan w (mkSpan (span_kind sp) (span_name sp) attributes))
    | None => (Ok tt, w)
    end.

(** ** The repeat strategy *)

(** A strategy computes the next fire time from the adjusted now, the
    repeat options and the job name.  It may read the clock and throw. *)
Definition RepeatStrategy : Type :=
  Z -> RepeatOptions -> string -> Clock -> Outcome (option Z) * Clock.

Definition await_strategy (run : Clock -> Outcome (option Z) * Clock)
    : M (option Z) :=
  fun w =>
    let '(o, c) := run (clock w) in
    (o, withClock w c).

(** What [parseExpression(pattern, {...opts, currentDate})] of the
    cron-parser package gives: it throws, or returns an interval whose
    [next().getTime()] is a time or throws ([None]). *)
Inductive Parsed :=
| ParseError (message : string)
| Interval (next : option Z).

Definition Parser : Type := option string -> RepeatOptions -> Z -> Parsed.

Definition defaultRepeatStrategy (parseExpression : Parser)
    : RepeatStrategy :=
  fun millis opts _ c =>
    let currentDate := millis in
    match parseExpression (pattern opts) opts currentDate with
    | ParseError e => (Throw e, c)
    | Interval next =>
        (* try { ... } catch (e) { } *)
        if truthy (immediately opts) then (Ok (Some (reading c)), tick c)
        else (Ok next, c)
    end.

(** ** The scheduler *)

Record JobScheduler := mkJobScheduler {
  name : string;
  repeatStrategy : RepeatStrategy;
  (** the propagation metadata of the tracer, when telemetry is set up *)
  tracer : option (option string)
}.

(** [constructor]: [settings] is [opts.settings && opts.settings.repeatStrategy]. *)
Definition constructor (parseExpression : Parser) (queueName : string)
    (settings : option RepeatStrategy) (telemetrySetup : option (option string))
    : JobScheduler :=
  mkJobScheduler queueName
    (match settings with
     | Some strategy => strategy
     | None => defaultRepeatStrategy parseExpression
     end)
    telemetrySetup.

(** Modelled from the spec: [trace] of [QueueBase], which is not among the
    sources.  With telemetry set up the callback runs inside a span of the
    given kind named by the operation and the destination, and receives the
    propagation metadata; without it the callback runs with neither. *)
Definition trace {A} (this : JobScheduler) (spanKind : SpanKind)
    (operation destination : string)
    (callback : option Span -> option string -> M A) : M A :=
  match tracer this with
  | Some srcPropagationMetadata =>
      callback (Some (mkSpan spanKind (operation +:+ " " +:+ destination) []))
        srcPropagationMetadata
  | None => callback None None
  end.

Definition getSchedulerNextJobId (jobSchedulerId : string) (nextMillis : Z)
    : string :=
  "repeat:" +:+ jobSchedulerId +:+ ":" +:+ pretty nextMillis.

Definition setCount (r : option RepeatOptions) (currentCount : Z)
    : RepeatOptions :=
  match r with
  | Some r =>
      mkRepeatOptions (pattern r) (every r) (offset r) (immediately r)
        (startDate r) (endDate r) (limit r) (Some currentCount) (tz r)
  | None =>
      mkRepeatOptions None None None None None None None (Some currentCount)
        None
  end.

(** Lines 213-232 of [createNextJob]: the job built for the fire time
    [nextMillis] when the clock reads [now]. *)
Definition nextJob (name : string) (nextMillis : Z) (jobSchedulerId : string)
    (opts : JobsOptions) (data : option Json) (currentCount : Z) (now : Z)
    : Job :=
  let jobId := getSchedulerNextJobId jobSchedulerId nextMillis in
  let delay := nextMillis - now in
  let mergedOpts :=
    mkJobsOptions (Some jobId) (Some (if delay <? 0 then 0 else delay))
      (Some now) (Some nextMillis) (Some jobSchedulerId)
      (Some (setCount (repeat opts) currentCount)) (telemetry opts)
      (others opts) in
  mkJob name data mergedOpts (Some jobId).

Definition createNextJob (client : list Command) (name : string)
    (nextMillis : Z) (jobSchedulerId : string) (opts : JobsOptions)
    (data : option Json) (currentCount : Z) : M (Job * list Command) :=
  now <- Date_now ;;
  let job := nextJob name nextMillis jobSchedulerId opts data currentCount now in
  (* job.addJob(client) *)
  ret (job, (client ++ [AddJob job])%list).

(** Line 69: [repeatOpts.count ? repeatOpts.count + 1 : 1]. *)
Definition iterationCount (repeatOpts : RepeatOptions) : Z :=
  match count repeatOpts with
  | Some c => if truthy c then c + 1 else 1
  | None => 1
  end.

(** Lines 70-73: the iteration limit is set and passed. *)
Definition limitReached (repeatOpts : RepeatOptions) : bool :=
  match limit repeatOpts with
  | Some l => iterationCount repeatOpts >? l
  | None => false
  end.

(** Line 80: [!(typeof endDate === undefined) && now > new
    Date(endDate!).getTime()].  [typeof] yields a string, so the first
    conjunct always holds; the time of [new Date(undefined)] is NaN, and
    no number is greater than NaN. *)
Definition endDateReached (repeatOpts : RepeatOptions) (now : Z) : bool :=
  match endDate repeatOpts with
  | Some e => now >? e
  | None => false
  end.

(** Lines 86-89: the start date, when truthy and later, replaces now. *)
Definition fromStartDate (repeatOpts : RepeatOptions) (now : Z) : Z :=
  match startDate repeatOpts with
  | Some startMillis =>
      if truthy startMillis
      then (if startMillis >? now then startMillis else now)
      else now
  | None => now
  end.

(** Lines 91-92: [now] after the previous fire time has been taken in. *)
Definition fromPrevMillis (prevMillis now : Z) : Z :=
  if prevMillis <? now then now else prevMillis.

(** Lines 98-111, the interval form: the next fire time and the offset to
    publish. *)
Definition everyNextMillis (every now prevMillis : Z) (offset : option Z)
    : Z * option Z :=
  let nextSlot := now / every * every + every in
  let '(nextMillis, newOffset) :=
    if truthy prevMillis || truthy offset
    then (nextSlot + orElse offset 0, offset)
    else
      let newOffset := every - (nextSlot - now) in
      (now, Some (if newOffset <? 0 then 0 else newOffset)) in
  (if nextMillis <? now then now else nextMillis, newOffset).

(** Line 85: [filteredRepeatOpts] is [repeatOpts] without [startDate] and
    [immediately]; line 169 sets its [offset]. *)
Definition filteredRepeatOpts (repeatOpts : RepeatOptions)
    (newOffset : option Z) : RepeatOptions :=
  mkRepeatOptions (pattern repeatOpts) (every repeatOpts) newOffset None None
    (endDate repeatOpts) (limit repeatOpts) (count repeatOpts)
    (tz repeatOpts).

(** Lines 146-160: the telemetry options of the instance. *)
Definition propagatedTelemetry (opts : JobsOptions)
    (srcPropagationMedatada : option string) : option Telemetry :=
  match srcPropagationMedatada with
  | Some src =>
      if truthy src then
        let omitContext :=
          match telemetry opts with Some t => omitContext t | None => None end in
        let given :=
          match telemetry opts with Some t => metadata t | None => None end in
        let telemetryMetadata :=
          match given with
          | Some m =>
              if truthy m then m
              else if truthy omitContext then MetaFalse else MetaString src
          | None => if truthy omitContext then MetaFalse else MetaString src
          end in
        if truthy telemetryMetadata || truthy omitContext
        then Some (mkTelemetry (Some telemetryMetadata) omitContext)
        else telemetry opts
      else telemetry opts
  | None => telemetry opts
  end.

Definition withRepeatAndTelemetry (opts : JobsOptions)
    (r : RepeatOptions) (t : option Telemetry) : JobsOptions :=
  mkJobsOptions (jobId opts) (delay opts) (timestamp opts) (prevMillis opts)
    (repeatJobKey opts) (Some r) t (others opts).

Definition setId (job : Job) (id : option string) : Job :=
  mkJob (job_name job) (job_data job) (job_opts job) id.

Definition bothDefined : string :=
  "Both .pattern and .every options are defined for this repeatable job".
Definition noneDefined : string :=
  "Either .pattern or .every options must be defined for this repeatable job".
Definition immediatelyAndStartDate : string :=
  "Both .immediately and .startDate options are defined for this repeatable job".
Definition immediatelyWarning : string :=
  "Using option immediately with every does not affect the job's schedule. Job will run immediately anyway.".

(** Lines 44-60: the message of the error thrown by the validation, if
    any. *)
Definition validationError (repeatOpts : RepeatOptions) : option string :=
  if truthy (pattern repeatOpts) && truthy (every repeatOpts)
  then Some bothDefined
  else if negb (truthy (pattern repeatOpts))
          && negb (truthy (every repeatOpts))
  then Some noneDefined
  else if truthy (immediately repeatOpts) && truthy (startDate repeatOpts)
  then Some immediatelyAndStartDate
  else None.

(** Lines 118-139: the command that advances the schedule. *)
Definition scheduleCommand (override : bool) (jobSchedulerId : string)
    (nextMillis : Z) (jobData : option Json) (opts : JobsOptions)
    (jobName : string) (repeatOpts : RepeatOptions) : Command :=
  if override
  then
    AddJobScheduler jobSchedulerId nextMillis (default (JObject []) jobData)
      opts
      (mkSchedulerTemplate jobName
         (if truthy (endDate repeatOpts) then endDate repeatOpts else None)
         (tz repeatOpts) (pattern repeatOpts) (every repeatOpts))
  else UpdateJobSchedulerNextMillis jobSchedulerId nextMillis.

(** Lines 141-197: the callback handed to [trace]. *)
Definition addNextJob (multi : list Command) (jobSchedulerId : string)
    (repeatOpts : RepeatOptions) (newOffset : option Z) (jobName : string)
    (jobData : option Json) (opts : JobsOptions) (nextMillis : Z)
    (span : option Span) (srcPropagationMedatada : option string)
    : M (option Job) :=
  let telemetry := propagatedTelemetry opts srcPropagationMedatada in
  built <-
    createNextJob multi jobName nextMillis jobSchedulerId
      (withRepeatAndTelemetry opts (filteredRepeatOpts repeatOpts newOffset)
         telemetry)
      jobData (iterationCount repeatOpts) ;;
  let '(job, multi) := built in
  results <- multi_exec multi ;;
  match List.find errored results with
  | Some erroredResult =>
      throw ("Error upserting job scheduler " +:+ jobSchedulerId +:+ " - "
             +:+ default EmptyString (fst erroredResult))
  | None =>
      match last results with
      | Some lastResult =>
          let job := setId job (snd lastResult) in
          setAttributes span
            [(TelemetryAttributes.JobSchedulerId, Some jobSchedulerId);
             (TelemetryAttributes.JobId, job_id job)] ;;;
          ret (Some job)
      | None => throw "TypeError: Cannot read properties of undefined"
      end
  end.

Definition upsertJobScheduler (this : JobScheduler) (jobSchedulerId : string)
    (repeatOpts : RepeatOptions) (jobName : string) (jobData : option Json)
    (opts : JobsOptions) (override : bool) : M (option Job) :=
  let every := every repeatOpts in
  let pattern := pattern repeatOpts in
  let offset := offset repeatOpts in
  match validationError repeatOpts with
  | Some message => throw message
  | None =>
    (if truthy (immediately repeatOpts) && truthy every
     then console_warn immediatelyWarning else ret tt) ;;;
    if limitReached repeatOpts then ret None
    else
      now <- Date_now ;;
      if endDateReached repeatOpts now then ret None
      else
        let now := fromStartDate repeatOpts now in
        let prevMillis := orElse (prevMillis opts) 0 in
        let now := fromPrevMillis prevMillis now in
        computed <-
          (if truthy every
           then
             let '(nextMillis, newOffset) :=
               everyNextMillis (default 0 every) now prevMillis offset in
             ret (Some nextMillis, newOffset)
           else if truthy pattern
           then
             nextMillis <-
               await_strategy (repeatStrategy this now repeatOpts jobName) ;;
             ret (nextMillis, offset)
           else ret (None, offset)) ;;
        let '(nextMillis, newOffset) := computed in
        await_client ;;;
        (* multi() makes a pipeline, a queue on the client side: nothing
           reaches the store before exec() *)
        let multi : list Command := [] in
        match nextMillis with
        | Some nextMillis =>
            if truthy nextMillis then
              let multi :=
                (multi ++
                 [scheduleCommand override jobSchedulerId nextMillis jobData
                    opts jobName repeatOpts])%list in
              trace this PRODUCER "add" (name this +:+ "." +:+ jobName)
                (addNextJob multi jobSchedulerId repeatOpts newOffset jobName
                   jobData opts nextMillis)
            else ret None
        | None => ret None
        end
  end.

(** ** Vocabulary of the statements *)

(** The world once the warning of line 62 has been given, if due. *)
Definition afterWarning (r : RepeatOptions) (w : World) : World :=
  if truthy (immediately r) && truthy (every r)
  then withWarning w immediatelyWarning else w.

(** Lines 84-92: [now] once the start date and the previous fire time have
    been taken in. *)
Definition alignedNow (r : RepeatOptions) (opts : JobsOptions) (now : Z) : Z :=
  fromPrevMillis (orElse (prevMillis opts) 0) (fromStartDate r now).

(** Lines 167-171: the options handed to [createNextJob]. *)
Definition instanceOptions (this : JobScheduler) (opts : JobsOptions)
    (r : RepeatOptions) (newOffset : option Z) : JobsOptions :=
  withRepeatAndTelemetry opts (filteredRepeatOpts r newOffset)
    (propagatedTelemetry opts
       (match tracer this with Some src => src | None => None end)).

(** The next fire time a queued command carries: the score of the two
    scheduler scripts, the [prevMillis] of an instance. *)
Definition nextMillisOf (c : Command) : option Z :=
  match c with
  | AddJobScheduler _ nextMillis _ _ _ => Some nextMillis
  | UpdateJobSchedulerNextMillis _ nextMillis => Some nextMillis
  | AddJob job => prevMillis (job_opts job)
  end.

(** How the fire time of a call is obtained: by the interval arithmetic, or
    from the strategy. *)
Definition computedBy (this : JobScheduler) (r : RepeatOptions)
    (jobName : string) (opts : JobsOptions) (w : World)
    (next : Z) (off : option Z) (c : Clock) : Prop :=
  let now := alignedNow r opts (reading (clock w)) in
  (exists e,
      every r = Some e /\ truthy e = true
      /\ everyNextMillis e now (orElse (prevMillis opts) 0) (offset r)
         = (next, off)
      /\ c = tick (clock w))
  \/ (truthy (every r) = false
      /\ repeatStrategy this now r jobName (tick (clock w))
         = (Ok (Some next), c)
      /\ off = offset r).


(** ** Fixtures for the examples *)

Definition steadyClock (t : Z) : Clock := mkClock (fun _ => t) 0.

Definition worldAt (t : Z) (s : Store) : World :=
  mkWorld (steadyClock t) [] [] s [].

Definition noOptions : JobsOptions :=
  mkJobsOptions None None None None None None None [].

Definition withPrevMillis (p : Z) : JobsOptions :=
  mkJobsOptions None None None (Some p) None None None [].


Definition minutely : string := "* * * * *".

(** A stand-in for cron-parser that knows one expression, the one of every
    minute.  Any other expression fails to parse; a next minute after the
    end date makes [next()] throw. *)
Definition minuteParser : Parser :=
  fun expression options currentDate =>
    match expression with
    | Some e =>
        if String.eqb e minutely then
          let next := (currentDate / 60000 + 1) * 60000 in
          Interval
            (match endDate options with
             | Some last => if last <? next then None else Some next
             | None => Some next
             end)
        else ParseError "Error: Invalid cron expression"
    | None => ParseError "Error: Invalid cron expression"
    end.

Definition queue : JobScheduler := constructor minuteParser "q" None None.

Definition everySecond : RepeatOptions :=
  mkRepeatOptions None (Some 1000) None None None None None None None.

Definition everySecondOffset (o : Z) : RepeatOptions :=
  mkRepeatOptions None (Some 1000) (Some o) None None None None None None.

Definition payload : option Json := Some (JObject [("x", JNumber 1)]).

(** Scenario 1: the first upsert of an interval scheduler while the clock
    reads 1000. *)
Definition firstUpsert : Outcome (option Job) * World :=
  upsertJobScheduler queue "s1" everySecond "j" payload noOptions true
    (worldAt 1000 emptyStore).

(** Scenario 2: the second upsert, on the store the first one left, while
    the clock reads 1500. *)
Definition secondUpsert : Outcome (option Job) * World :=
  upsertJobScheduler queue "s1" (everySecondOffset 1000) "j" payload
    (withPrevMillis 1000) false (worldAt 1500 (store (snd firstUpsert))).

Definition returned (run : Outcome (option Job) * World) : option Job :=
  match fst run with
  | Ok job => job
  | Throw _ => None
  end.

Definition everyMinute : RepeatOptions :=
  mkRepeatOptions (Some minutely) None None None None None None None None.

Definition everyMinuteNow : RepeatOptions :=
  mkRepeatOptions (Some minutely) None None (Some true) None None None None
    None.

Definition everyMinuteUntil (last : Z) : RepeatOptions :=
  mkRepeatOptions (Some minutely) None None None None (Some last) None None
    None.

Definition unparsable : RepeatOptions :=
  mkRepeatOptions (Some "every day") None None None None None None None None.

Definition everySecondUntil (last : Z) : RepeatOptions :=
  mkRepeatOptions None (Some 1000) None None None (Some last) None None None.

(** Scenario 4: two iterations allowed, two done. *)
Definition twice : RepeatOptions :=
  mkRepeatOptions None (Some 1000) None None None None (Some 2) (Some 2) None.




(** A custom strategy that always answers the epoch. *)
Definition epochStrategy : RepeatStrategy := fun _ _ _ c => (Ok (Some 0), c).

Definition epochQueue : JobScheduler :=
  constructor minuteParser "q" (Some epochStrategy) None.

(** Scenario 5 with a previous fire time ahead of the clock. *)
Definition immediateUpsert : Outcome (option Job) * World :=
  upsertJobScheduler queue "s4" everyMinuteNow "j" payload
    (withPrevMillis 5000) true (worldAt 1000 emptyStore).

Definition minutelyUpsert : Outcome (option Job) * World :=
  upsertJobScheduler queue "s2" everyMinute "j" payload (withPrevMillis 5000)
    true (worldAt 1000 emptyStore).

Definition unparsableUpsert : Outcome (option Job) * World :=
  upsertJobScheduler queue "s2" unparsable "j" payload noOptions true
    (worldAt 1000 emptyStore).

(** The commands of the last transaction executed in a world. *)
Definition lastExecuted (w : World) : list Command :=
  match last (events w) with
  | Some (Executed cmds) => cmds
  | _ => []
  end.

(** ** Vocabulary of the further statements *)

(** The span of line 141 once its attributes are set (lines 190-193). *)
Definition producerSpan (this : JobScheduler) (jobName jobSchedulerId : string)
    (id : option string) : Span :=
  mkSpan PRODUCER ("add" +:+ " " +:+ (name this +:+ "." +:+ jobName))
    [(TelemetryAttributes.JobSchedulerId, Some jobSchedulerId);
     (TelemetryAttributes.JobId, id)].

(** Line 182: the message of the error thrown for a failed transaction. *)
Definition transactionError (jobSchedulerId : string) (e : string) : string :=
  "Error upserting job scheduler " +:+ jobSchedulerId +:+ " - " +:+ e.

(** ** Reading schedulers back *)

(** *** Strings and numbers of JavaScript

    Strings are sequences of ASCII characters. *)

(** The code of a character, and the characters the scheduler looks for. *)
Definition charCode (c : Ascii.ascii) : Z := Z.of_nat (Ascii.nat_of_ascii c).

Definition isColon (c : Ascii.ascii) : bool := Z.eqb (charCode c) 58.

(** [s.split(':')]. *)
Fixpoint split (s : string) : list string :=
  match s with
  | EmptyString => [EmptyString]
  | String c s' =>
      if isColon c then EmptyString :: split s'
      else
        match split s' with
        | part :: parts => String c part :: parts
        | [] => [String c EmptyString]
        end
  end.

(** [parts.join(':')]. *)
Fixpoint join (parts : list string) : string :=
  match parts with
  | [] => EmptyString
  | [part] => part
  | part :: parts' => part +:+ ":" +:+ join parts'
  end.

(** A string without colon. *)
Fixpoint colonFree (s : string) : bool :=
  match s with
  | EmptyString => true
  | String c s' => negb (isColon c) && colonFree s'
  end.

(** A number that may be NaN. *)
Inductive Num :=
| Number (n : Z)
| NaN.

#[global] Instance truthy_num : Truthy Num :=
  fun x => match x with Number n => truthy n | NaN => false end.

(** White space and line terminators (the ASCII ones). *)
Definition isWhiteSpace (c : Ascii.ascii) : bool :=
  let n := charCode c in
  ((9 <=? n) && (n <=? 13)) || Z.eqb n 32.

Fixpoint trimStart (s : string) : string :=
  match s with
  | String c s' => if isWhiteSpace c then trimStart s' else s
  | EmptyString => s
  end.

(** The value of a digit: 0-9, then a-z or A-Z for 10-35. *)
Definition digitValue (c : Ascii.ascii) : option Z :=
  let n := charCode c in
  if (48 <=? n) && (n <=? 57) then Some (n - 48)
  else if (97 <=? n) && (n <=? 122) then Some (n - 87)
  else if (65 <=? n) && (n <=? 90) then Some (n - 55)
  else None.

(** The longest prefix of digits of the radix, as a number; [acc] is the
    value so far, [None] before the first digit. *)
Fixpoint parseDigits (radix : Z) (s : string) (acc : option Z) : option Z :=
  match s with
  | EmptyString => acc
  | String c s' =>
      match digitValue c with
      | Some d =>
          if d <? radix
          then parseDigits radix s' (Some (default 0 acc * radix + d))
          else acc
      | None => acc
      end
  end.

(** A leading sign, and what follows it. *)
Definition readSign (s : string) : Z * string :=
  match s with
  | String c s' =>
      if Z.eqb (charCode c) 45 then (-1, s')        (* - *)
      else if Z.eqb (charCode c) 43 then (1, s')    (* + *)
      else (1, s)
  | EmptyString => (1, s)
  end.

(** The radix: 16 after a prefix [0x] or [0X], which is dropped, else 10. *)
Definition readRadix (s : string) : Z * string :=
  match s with
  | String c (String x s') =>
      if Z.eqb (charCode c) 48                      (* 0 *)
         && (Z.eqb (charCode x) 120 || Z.eqb (charCode x) 88)  (* x, X *)
      then (16, s')
      else (10, s)
  | _ => (10, s)
  end.

(** [parseInt(s)], without a radix: white space is skipped, a sign read, a
    prefix [0x] or [0X] selects radix 16, and the digits are read as far as
    they go; no digit gives NaN. *)
Definition parseInt (s : string) : Num :=
  let '(sign, s) := readSign (trimStart s) in
  let '(radix, s) := readRadix s in
  match parseDigits radix s None with
  | Some n => Number (sign * n)
  | None => NaN
  end.

(** [parseInt(x)] of a property that may be [undefined], which reads as the
    string "undefined". *)
Definition parseIntOf (x : option string) : Num :=
  parseInt (default "undefined" x).

(** [x || null] on a number that may be NaN, and on a string that may be
    [undefined]. *)
Definition numberOrNull (x : Num) : option Z :=
  match x with
  | Number n => if truthy n then Some n else None
  | NaN => None
  end.

Definition stringOrNull (x : option string) : option string :=
  match x with
  | Some s => if truthy s then Some s else None
  | None => None
  end.

(** *** Descriptors *)

(** Modelled from the spec: the interface [JobSchedulerTemplateJson],
    declared outside the sources: the decoded payload and template
    options. *)
Record JobSchedulerTemplateJson := mkTemplateJson {
  template_data : option Json;
  template_opts : option JobsOptions
}.

(** Modelled from the spec: the interface [JobSchedulerJson], declared
    outside the sources, with the properties the two decoders set.  [None]
    stands for [null], for [undefined] and for a property that is not
    set. *)
Record JobSchedulerJson := mkSchedulerJson {
  json_key : string;
  json_name : option string;
  json_id : option string;
  json_endDate : option Z;
  json_tz : option string;
  json_pattern : option string;
  json_every : option string;
  json_template : option JobSchedulerTemplateJson;
  json_next : option Num
}.

(** [JSON.parse] and [Job.optsFromJSON], which lie outside the sources:
    they decode a text or throw. *)
Record Codec := mkCodec {
  JSON_parse : string -> Outcome Json;
  optsFromJSON : string -> Outcome JobsOptions
}.

(** The reads of the store client that the scheduler uses, on a snapshot:
    [hgetall] gives the fields of a hash, none for a key that is not there;
    [zrange] and [zrevrange] with WITHSCORES give members and scores in
    turn. *)
Record RedisClient := mkRedisClient {
  hgetall : string -> gmap string string;
  zrange : string -> Z -> Z -> list string;
  zrevrange : string -> Z -> Z -> list string;
  zcard : string -> Z
}.

(** Modelled from the spec: [toKey] and [keys.repeat] of [QueueBase],
    which are not among the sources.  Under the prefix of the queue, the
    index is [prefix:repeat] and the definition of an id is
    [prefix:repeat:id]. *)
Definition toKey (prefix type : string) : string := prefix +:+ ":" +:+ type.

Definition keys_repeat (prefix : string) : string := toKey prefix "repeat".

(** Lines 277-290. *)
Definition keyToData (key : string) (next : option Num) : JobSchedulerJson :=
  let data := split key in
  let pattern := stringOrNull (Some (join (drop 4 data))) in
  mkSchedulerJson key (data !! 0%nat) (stringOrNull (data !! 1%nat))
    (numberOrNull (parseIntOf (data !! 2%nat))) (stringOrNull (data !! 3%nat))
    pattern None None next.

(** Lines 302-314. *)
Definition getTemplateFromJSON (codec : Codec) (rawData rawOpts : option string)
    : Outcome JobSchedulerTemplateJson :=
  match
    (if truthy rawData
     then
       match JSON_parse codec (default EmptyString rawData) with
       | Ok d => Ok (Some d)
       | Throw e => Throw e
       end
     else Ok None)
  with
  | Throw e => Throw e
  | Ok data =>
      match
        (if truthy rawOpts
         then
           match optsFromJSON codec (default EmptyString rawOpts) with
           | Ok o => Ok (Some o)
           | Throw e => Throw e
           end
         else Ok None)
      with
      | Throw e => Throw e
      | Ok opts => Ok (mkTemplateJson data opts)
      end
  end.

(** Lines 252-275.  [jobData] is an object of strings, or [null]. *)
Definition transformSchedulerData (codec : Codec) (key : string)
    (jobData : option (gmap string string)) (next : option Num)
    : Outcome JobSchedulerJson :=
  match jobData with
  | Some jobData =>
      match
        (if truthy (jobData !! "data") || truthy (jobData !! "opts")
         then
           match
             getTemplateFromJSON codec (jobData !! "data") (jobData !! "opts")
           with
           | Ok t => Ok (Some t)
           | Throw e => Throw e
           end
         else Ok None)
      with
      | Throw e => Throw e
      | Ok template =>
          Ok (mkSchedulerJson key (jobData !! "name") None
                (numberOrNull (parseIntOf (jobData !! "endDate")))
                (stringOrNull (jobData !! "tz"))
                (stringOrNull (jobData !! "pattern"))
                (stringOrNull (jobData !! "every")) template next)
      end
  | None => Ok (keyToData key next)
  end.

(** Lines 242-250. *)
Definition getSchedulerData (codec : Codec) (prefix : string)
    (client : RedisClient) (key : string) (next : option Num)
    : Outcome JobSchedulerJson :=
  let jobData := hgetall client (toKey prefix ("repeat:" +:+ key)) in
  transformSchedulerData codec key (Some jobData) next.

(** [Promise.all]: the values in order, or the first rejection. *)
Fixpoint Promise_all {A} (promises : list (Outcome A)) : Outcome (list A) :=
  match promises with
  | [] => Ok []
  | Throw e :: _ => Throw e
  | Ok a :: rest =>
      match Promise_all rest with
      | Ok l => Ok (a :: l)
      | Throw e => Throw e
      end
  end.

(** Lines 328-333: the loop over the reply, two entries at a time. *)
Fixpoint schedulersOf (codec : Codec) (prefix : string) (client : RedisClient)
    (result : list string) : list (Outcome JobSchedulerJson) :=
  match result with
  | [] => []
  | [member] =>
      [getSchedulerData codec prefix client member (Some (parseIntOf None))]
  | member :: score :: rest =>
      getSchedulerData codec prefix client member
        (Some (parseIntOf (Some score)))
      :: schedulersOf codec prefix client rest
  end.

(** Lines 316-335; the parameters default to 0, -1 and [false]. *)
Definition getJobSchedulers (codec : Codec) (prefix : string)
    (client : RedisClient) (start end_ : option Z) (asc : option bool)
    : Outcome (list JobSchedulerJson) :=
  let start := default 0 start in
  let end_ := default (-1) end_ in
  let asc := default false asc in
  let jobSchedulersKey := keys_repeat prefix in
  let result :=
    if asc then zrange client jobSchedulersKey start end_
    else zrevrange client jobSchedulersKey start end_ in
  Promise_all (schedulersOf codec prefix client result).

(** Lines 337-342. *)
Definition getSchedulersCount (prefix : string) (client : RedisClient) : Z :=
  zcard client (keys_repeat prefix).

(** Lines 292-300.  [getJobScheduler] is the script of the [Scripts] class
    and [array2obj] the function of the utilities, neither among the
    sources: the first replies with the fields of the hash, or [null], and
    the score, or [null]; the second makes an object of the fields. *)
Definition getScheduler (codec : Codec)
    (getJobScheduler : string -> option (list string) * option string)
    (array2obj : list string -> gmap string string) (id : string)
    : Outcome JobSchedulerJson :=
  let '(rawJobData, next) := getJobScheduler id in
  transformSchedulerData codec id
    (match rawJobData with
     | Some raw => Some (array2obj raw)
     | None => None
     end)
    (if truthy next then Some (parseIntOf next) else None).

(** A string of decimal digits only. *)
Definition isDigit (c : Ascii.ascii) : bool :=
  (48 <=? charCode c) && (charCode c <=? 57).

Fixpoint allDigits (s : string) : bool :=
  match s with
  | EmptyString => true
  | String c s' => isDigit c && allDigits s'
  end.

(** The reply of a range query WITHSCORES for the given entries: each
    member followed by its score in decimal. *)
Definition withScores (entries : list (string * Z)) : list string :=
  flat_map (fun entry => [fst entry; pretty (snd entry)]) entries.

(** ** Fixtures for the further statements *)

(** A codec that rejects every text. *)
Definition strictCodec : Codec :=
  mkCodec (fun _ => Throw "SyntaxError") (fun _ => Throw "SyntaxError").

(** A client whose index holds [s2] at 3000 and [s1] at 1000, and that has
    no hash at all. *)
Definition bareClient : RedisClient :=
  mkRedisClient (fun _ => ∅)
    (fun _ _ _ => ["s1"; "1000"; "s2"; "3000"])
    (fun _ _ _ => ["s2"; "3000"; "s1"; "1000"])
    (fun _ => 2).

(** A tracer that propagates the context ["ctx"]. *)
Definition tracedQueue : JobScheduler :=
  mkJobScheduler "q" (defaultRepeatStrategy minuteParser) (Some (Some "ctx")).

Definition tracedUpsert : Outcome (option Job) * World :=
  upsertJobScheduler tracedQueue "s1" everySecond "j" payload noOptions true
    (worldAt 1000 emptyStore).

Definition secondOfTwo : RepeatOptions :=
  mkRepeatOptions None (Some 1000) (Some 0) None None (Some 5000) (Some 2)
    (Some 1) None.

Definition secondOfTwoUpsert : Outcome (option Job) * World :=
  upsertJobScheduler queue "s1" secondOfTwo "j" payload (withPrevMillis 1000)
    false (worldAt 1500 emptyStore).

(** The instance queued by the last transaction executed in a world. *)
Definition lastInstance (w : World) : option Job :=
  match lastExecuted w with
  | [_; AddJob job] => Some job
  | _ => None
  end.

(** A definition hash with an end date of 0 and an empty time zone. *)
Definition storedHash : gmap string string :=
  <["name" := "report"]>
    (<["endDate" := "0"]> (<["tz" := EmptyString]> (<["every" := "1000"]> ∅))).

Definition decodedHash : JobSchedulerJson :=
  mkSchedulerJson "s1" (Some "report") None None None None (Some "1000") None
    None.

(** ** Fixtures for the zero offset and the warning *)


(** A first upsert that is given the offset 0, while the clock reads
    1500. *)
Definition zeroOffsetUpsert : Outcome (option Job) * World :=
  upsertJobScheduler queue "s1" (everySecondOffset 0) "j" payload noOptions
    true (worldAt 1500 emptyStore).

(** * Properties *)

(** ** Numbers and truthiness *)

Lemma truthy_number_true n : truthy n = true <-> n <> 0.
Proof.
  unfold truthy, truthy_number. destruct (Z.eqb_spec n 0); simpl; split;
    intros; try lia; try done.
Qed.

Lemma truthy_optional_Some (o : option Z) :
  truthy o = true -> exists n, o = Some n /\ truthy n = true.
Proof. destruct o as [n|]; [eauto | discriminate]. Qed.

Lemma orElse_Some p : orElse (Some p) 0 = p.
Proof.
  unfold orElse, truthy, truthy_number.
  destruct (Z.eqb_spec p 0); simpl; lia.
Qed.

Lemma orElse_falsy (o : option Z) : truthy o = false -> orElse o 0 = 0.
Proof.
  destruct o as [n|]; [|reflexivity]. intros H.
  change (truthy n = false) in H. unfold orElse. rewrite H. reflexivity.
Qed.

Lemma fromStartDate_ge r t : t <= fromStartDate r t.
Proof.
  unfold fromStartDate. destruct (startDate r) as [s|]; [|lia].
  destruct (truthy s); [|lia]. destruct (Z.gtb_spec s t); lia.
Qed.

Lemma fromPrevMillis_max p t : fromPrevMillis p t = Z.max t p.
Proof. unfold fromPrevMillis. destruct (Z.ltb_spec p t); lia. Qed.

Lemma alignedNow_ge_reading r opts t : t <= alignedNow r opts t.
Proof.
  unfold alignedNow. rewrite fromPrevMillis_max.
  pose proof (fromStartDate_ge r t). lia.
Qed.

Lemma alignedNow_ge_prevMillis r opts t p :
  prevMillis opts = Some p -> p <= alignedNow r opts t.
Proof.
  intros H. unfold alignedNow. rewrite H, orElse_Some, fromPrevMillis_max.
  lia.
Qed.

Lemma alignedNow_ge_startDate r opts t s :
  startDate r = Some s -> 0 <= t -> s <= alignedNow r opts t.
Proof.
  intros H Ht. unfold alignedNow. rewrite fromPrevMillis_max.
  enough (s <= fromStartDate r t) by lia.
  unfold fromStartDate. rewrite H. unfold truthy, truthy_number.
  destruct (Z.eqb_spec s 0); simpl; [lia|].
  destruct (Z.gtb_spec s t); lia.
Qed.

Lemma everyNextMillis_clamped e now p off :
  fst (everyNextMillis e now p off)
  = if truthy p || truthy off
    then Z.max (now / e * e + e + orElse off 0) now
    else now.
Proof.
  unfold everyNextMillis. destruct (truthy p || truthy off); simpl.
  - destruct (Z.ltb_spec (now / e * e + e + orElse off 0) now); lia.
  - rewrite Z.ltb_irrefl. reflexivity.
Qed.

Lemma everyNextMillis_ge e now p off :
  now <= fst (everyNextMillis e now p off).
Proof.
  rewrite everyNextMillis_clamped. destruct (truthy p || truthy off); lia.
Qed.

(** ** The world *)

Lemma app_cons_not_self {A} (l t : list A) (x : A) :
  l = (l ++ x :: t)%list -> False.
Proof.
  intros H. apply (f_equal length) in H. rewrite length_app in H.
  simpl in H. lia.
Qed.

Lemma events_afterWarning r w : events (afterWarning r w) = events w.
Proof.
  unfold afterWarning.
  destruct (truthy (immediately r) && truthy (every r)); reflexivity.
Qed.

Lemma store_afterWarning r w : store (afterWarning r w) = store w.
Proof.
  unfold afterWarning.
  destruct (truthy (immediately r) && truthy (every r)); reflexivity.
Qed.

Lemma clock_afterWarning r w : clock (afterWarning r w) = clock w.
Proof.
  unfold afterWarning.
  destruct (truthy (immediately r) && truthy (every r)); reflexivity.
Qed.

(** ** The pipeline *)

Lemma runCommands_length s cs :
  length (fst (runCommands s cs)) = length cs.
Proof.
  revert s. induction cs as [|c cs IH]; intros s; simpl; [reflexivity|].
  destruct (runCommand s c) as [r s1]. specialize (IH s1).
  destruct (runCommands s1 cs) as [rs s2]. simpl in *. congruence.
Qed.

Lemma find_errored_Some rs r :
  List.find errored rs = Some r -> exists e, fst r = Some e.
Proof.
  intros H. apply List.find_some in H as [_ H]. unfold errored in H.
  destruct (fst r) as [e|]; [eauto | discriminate].
Qed.

(** What running the callback of [trace] amounts to: the instance is built
    at the reading of the clock and the pipeline is executed once. *)
Lemma trace_addNextJob this kind op dest multi id r off jobName data opts
    next w :
  let job :=
    nextJob jobName next id (instanceOptions this opts r off) data
      (iterationCount r) (reading (clock w)) in
  exists out w',
    trace this kind op dest
      (addNextJob multi id r off jobName data opts next) w = (out, w')
    /\ events w' = (events w ++ [Executed (multi ++ [AddJob job])])%list
    /\ clock w' = tick (clock w)
    /\ console w' = console w
    /\ (forall j, out = Ok j -> exists reply, j = Some (setId job reply))
    /\ (forall m, out = Throw m ->
        exists e, m = "Error upserting job scheduler " +:+ id +:+ " - " +:+ e).
Proof.
  intros job.
  assert (Hrun : forall span src,
    propagatedTelemetry opts src
    = propagatedTelemetry opts
        (match tracer this with Some s => s | None => None end) ->
    exists out w',
      addNextJob multi id r off jobName data opts next span src w = (out, w')
      /\ events w' = (events w ++ [Executed (multi ++ [AddJob job])])%list
      /\ clock w' = tick (clock w)
      /\ console w' = console w
      /\ (forall j, out = Ok j -> exists reply, j = Some (setId job reply))
      /\ (forall m, out = Throw m ->
          exists e,
            m = "Error upserting job scheduler " +:+ id +:+ " - " +:+ e)).
  { intros span src Hsrc. unfold addNextJob, createNextJob, bind. simpl.
    rewrite Hsrc. fold (instanceOptions this opts r off). fold job.
    unfold multi_exec. simpl.
    pose proof (runCommands_length (store w) (multi ++ [AddJob job])) as Hlen.
    destruct (runCommands (store w) (multi ++ [AddJob job])) as [rs s'].
    simpl in Hlen.
    destruct (List.find errored rs) as [bad|] eqn:Hfind.
    - apply find_errored_Some in Hfind as [e He]. rewrite He. simpl.
      eexists _, _. split; [reflexivity|]. simpl.
      repeat split; try done. intros m [= <-]. eauto.
    - destruct (last rs) as [l|] eqn:Hlast.
      + unfold setAttributes. destruct span; simpl;
          (eexists _, _; split; [reflexivity|]; simpl;
           repeat split; try done; intros j [= <-]; eauto).
      + apply last_None in Hlast. subst rs.
        rewrite length_app in Hlen. simpl in Hlen. lia. }
  unfold trace. destruct (tracer this) as [src|]; apply Hrun; reflexivity.
Qed.

(** Runs the callback of [trace] met in the goal, or in a hypothesis. *)
Tactic Notation "run_trace" "as" simple_intropattern(facts) :=
  match goal with
  | |- context [trace ?t ?k ?o ?d
                  (addNextJob ?mu ?i ?r ?off ?jn ?da ?op ?n) ?w1] =>
      destruct (trace_addNextJob t k o d mu i r off jn da op n w1) as facts
  end.
Tactic Notation "run_trace" "in" hyp(H) "as" simple_intropattern(facts) :=
  match type of H with
  | context [trace ?t ?k ?o ?d
               (addNextJob ?mu ?i ?r ?off ?jn ?da ?op ?n) ?w1] =>
      destruct (trace_addNextJob t k o d mu i r off jn da op n w1) as facts
  end.

(** ** The paths through [upsertJobScheduler] *)

Lemma upsert_invalid this id r jobName data opts override w message :
  validationError r = Some message ->
  upsertJobScheduler this id r jobName data opts override w
  = (Throw message, w).
Proof.
  intros H. unfold upsertJobScheduler. rewrite H. reflexivity.
Qed.

Lemma upsert_limit this id r jobName data opts override w :
  validationError r = None ->
  limitReached r = true ->
  upsertJobScheduler this id r jobName data opts override w
  = (Ok None, afterWarning r w).
Proof.
  intros Hv Hl. unfold upsertJobScheduler, afterWarning. rewrite Hv.
  unfold bind. destruct (truthy (immediately r) && truthy (every r)); simpl;
    rewrite Hl; reflexivity.
Qed.

Lemma upsert_endDate this id r jobName data opts override w :
  validationError r = None ->
  limitReached r = false ->
  endDateReached r (reading (clock w)) = true ->
  upsertJobScheduler this id r jobName data opts override w
  = (Ok None, withClock (afterWarning r w) (tick (clock w))).
Proof.
  intros Hv Hl He. unfold upsertJobScheduler, afterWarning. rewrite Hv.
  unfold bind. destruct (truthy (immediately r) && truthy (every r)); simpl;
    rewrite Hl; simpl; rewrite He; reflexivity.
Qed.

Lemma pattern_form r :
  validationError r = None -> truthy (every r) = false ->
  truthy (pattern r) = true.
Proof.
  unfold validationError. intros Hv Hevery. rewrite Hevery in Hv.
  destruct (truthy (pattern r)); [reflexivity | discriminate].
Qed.

(** A call that passes the validation and both horizon checks. *)
Section LiveCall.

Variables (this : JobScheduler) (id : string) (r : RepeatOptions)
  (jobName : string) (data : option Json) (opts : JobsOptions)
  (override : bool) (w : World).

Hypothesis Hvalid : validationError r = None.
Hypothesis Hlimit : limitReached r = false.
Hypothesis Hend : endDateReached r (reading (clock w)) = false.

Lemma upsert_every e :
  every r = Some e -> truthy e = true ->
  let now := alignedNow r opts (reading (clock w)) in
  let computed :=
    everyNextMillis e now (orElse (prevMillis opts) 0) (offset r) in
  let w1 :=
    withEvent (withClock (afterWarning r w) (tick (clock w))) ClientAwaited in
  upsertJobScheduler this id r jobName data opts override w
  = if truthy (fst computed)
    then
      trace this PRODUCER "add" (name this +:+ "." +:+ jobName)
        (addNextJob
           [scheduleCommand override id (fst computed) data opts jobName r]
           id r (snd computed) jobName data opts (fst computed)) w1
    else (Ok None, w1).
Proof.
  intros Hevery Hte now computed w1.
  unfold upsertJobScheduler. rewrite Hvalid. unfold bind at 1.
  subst w1. unfold afterWarning.
  destruct (truthy (immediately r) && truthy (every r)); simpl;
    rewrite Hlimit; unfold bind at 1; simpl; rewrite Hend;
    rewrite Hevery; simpl; unfold truthy at 1; simpl; rewrite Hte;
    subst now computed; unfold alignedNow;
    destruct (everyNextMillis _ _ _ _) as [n o]; simpl;
    unfold bind; simpl; destruct (truthy n); reflexivity.
Qed.

Lemma upsert_pattern :
  truthy (every r) = false ->
  let now := alignedNow r opts (reading (clock w)) in
  upsertJobScheduler this id r jobName data opts override w
  = match repeatStrategy this now r jobName (tick (clock w)) with
    | (Throw e, c) => (Throw e, withClock w c)
    | (Ok nextMillis, c) =>
        let w1 := withEvent (withClock w c) ClientAwaited in
        match nextMillis with
        | Some n =>
            if truthy n
            then
              trace this PRODUCER "add" (name this +:+ "." +:+ jobName)
                (addNextJob [scheduleCommand override id n data opts jobName r]
                   id r (offset r) jobName data opts n) w1
            else (Ok None, w1)
        | None => (Ok None, w1)
        end
    end.
Proof.
  intros Hevery now.
  pose proof (pattern_form r Hvalid Hevery) as Hp.
  unfold upsertJobScheduler. rewrite Hvalid, Hevery, Hp.
  rewrite andb_false_r. unfold bind at 1. simpl.
  rewrite Hlimit. unfold bind at 1. simpl. rewrite Hend.
  unfold bind at 1. unfold bind at 1. unfold await_strategy. simpl.
  subst now. unfold alignedNow.
  destruct (repeatStrategy this _ r jobName (tick (clock w))) as [[v|e] c];
    simpl; [|reflexivity].
  unfold bind. simpl. destruct v as [n|]; [|reflexivity].
  destruct (truthy n); reflexivity.
Qed.

Lemma upsert_every_executes e :
  every r = Some e -> truthy e = true ->
  let now := alignedNow r opts (reading (clock w)) in
  let computed :=
    everyNextMillis e now (orElse (prevMillis opts) 0) (offset r) in
  let job :=
    nextJob jobName (fst computed) id
      (instanceOptions this opts r (snd computed)) data (iterationCount r)
      (reading (tick (clock w))) in
  fst computed <> 0 ->
  exists out w',
    upsertJobScheduler this id r jobName data opts override w = (out, w')
    /\ events w'
       = (events w
          ++ [ClientAwaited;
              Executed
                [scheduleCommand override id (fst computed) data opts jobName
                   r;
                 AddJob job]])%list
    /\ (forall j, out = Ok (Some j) -> job_opts j = job_opts job).
Proof.
  intros Hevery Hte now computed job Hnext.
  rewrite (upsert_every e Hevery Hte).
  fold now. fold computed.
  assert (Ht : truthy (fst computed) = true).
  { unfold truthy, truthy_number.
    destruct (Z.eqb_spec (fst computed) 0); [lia|done]. }
  rewrite Ht.
  run_trace as (out & w' & Hrun & Hev & _ & _ & Hok & _).
  exists out, w'. split; [exact Hrun|]. split.
  - rewrite Hev. simpl. rewrite events_afterWarning, <- app_assoc.
    reflexivity.
  - intros j Hj. destruct (Hok _ Hj) as [reply [= ->]]. reflexivity.
Qed.

End LiveCall.

Lemma upsert_executes this id r jobName data opts override w out w' cmds :
  upsertJobScheduler this id r jobName data opts override w = (out, w') ->
  events w' = (events w ++ [ClientAwaited; Executed cmds])%list ->
  exists next off c,
    validationError r = None
    /\ limitReached r = false
    /\ endDateReached r (reading (clock w)) = false
    /\ computedBy this r jobName opts w next off c
    /\ truthy next = true
    /\ cmds
       = [scheduleCommand override id next data opts jobName r;
          AddJob
            (nextJob jobName next id (instanceOptions this opts r off) data
               (iterationCount r) (reading c))]
    /\ clock w' = tick c
    /\ (forall j, out = Ok j ->
        exists reply,
          j = Some
                (setId
                   (nextJob jobName next id (instanceOptions this opts r off)
                      data (iterationCount r) (reading c)) reply)).
Proof.
  intros Hrun Hev.
  destruct (validationError r) as [m|] eqn:Hv.
  { rewrite (upsert_invalid _ _ _ _ _ _ _ _ _ Hv) in Hrun.
    injection Hrun as _ <-. destruct (app_cons_not_self _ _ _ Hev). }
  destruct (limitReached r) eqn:Hl.
  { rewrite (upsert_limit _ _ _ _ _ _ _ _ Hv Hl) in Hrun.
    injection Hrun as _ <-. rewrite events_afterWarning in Hev.
    destruct (app_cons_not_self _ _ _ Hev). }
  destruct (endDateReached r (reading (clock w))) eqn:He.
  { rewrite (upsert_endDate _ _ _ _ _ _ _ _ Hv Hl He) in Hrun.
    injection Hrun as _ <-. simpl in Hev. rewrite events_afterWarning in Hev.
    destruct (app_cons_not_self _ _ _ Hev). }
  destruct (truthy (every r)) eqn:Hevery.
  - destruct (truthy_optional_Some _ Hevery) as (e & Hsome & Hte).
    rewrite (upsert_every _ _ _ _ _ _ _ _ Hv Hl He e Hsome Hte) in Hrun.
    destruct (everyNextMillis e _ _ _) as [next off] eqn:Hcomp.
    simpl in Hrun. destruct (truthy next) eqn:Htn.
    + run_trace in Hrun as (out0 & w0 & Hrun0 & Hev0 & Hck & _ & Hok & _).
      rewrite Hrun0 in Hrun. injection Hrun as <- <-.
      simpl in Hev0. rewrite events_afterWarning in Hev0.
      rewrite Hev0 in Hev. rewrite <- app_assoc in Hev.
      apply app_inv_head in Hev. injection Hev as <-.
      exists next, off, (tick (clock w)).
      repeat split; try done.
      left. exists e. repeat split; done.
    + injection Hrun as _ <-. simpl in Hev.
      rewrite events_afterWarning in Hev. apply app_inv_head in Hev.
      discriminate.
  - rewrite (upsert_pattern _ _ _ _ _ _ _ _ Hv Hl He Hevery) in Hrun.
    destruct (repeatStrategy this _ r jobName (tick (clock w)))
      as [[v|e] c] eqn:Hs.
    + destruct v as [next|].
      * simpl in Hrun. destruct (truthy next) eqn:Htn.
        -- run_trace in Hrun as (out0 & w0 & Hrun0 & Hev0 & Hck & _ & Hok & _).
           rewrite Hrun0 in Hrun. injection Hrun as <- <-.
           simpl in Hev0. rewrite Hev0 in Hev. rewrite <- app_assoc in Hev.
           apply app_inv_head in Hev. injection Hev as <-.
           exists next, (offset r), c.
           repeat split; try done.
           right. repeat split; done.
        -- injection Hrun as _ <-. simpl in Hev. apply app_inv_head in Hev.
           discriminate.
      * injection Hrun as _ <-. simpl in Hev. apply app_inv_head in Hev.
        discriminate.
    + injection Hrun as _ <-. simpl in Hev.
      destruct (app_cons_not_self _ _ _ Hev).
Qed.

(** ** The default strategy and the stand-in parser *)

Lemma defaultRepeatStrategy_parsed parse millis o jobName c next :
  parse (pattern o) o millis = Interval next ->
  defaultRepeatStrategy parse millis o jobName c
  = if truthy (immediately o) then (Ok (Some (reading c)), tick c)
    else (Ok next, c).
Proof. intros H. unfold defaultRepeatStrategy. rewrite H. reflexivity. Qed.

Lemma defaultRepeatStrategy_not_before parse r jobName :
  truthy (immediately r) = false ->
  (forall expression o t n, parse expression o t = Interval (Some n) -> t <= n) ->
  forall millis c v c',
    defaultRepeatStrategy parse millis r jobName c = (Ok (Some v), c') ->
    millis <= v.
Proof.
  intros Hi Hparse millis c v c'. unfold defaultRepeatStrategy.
  destruct (parse (pattern r) r millis) as [e|next] eqn:Hp; [discriminate|].
  rewrite Hi. intros [= -> _]. exact (Hparse _ _ _ _ Hp).
Qed.

Lemma minuteParser_later expression o t n :
  minuteParser expression o t = Interval (Some n) -> t <= n.
Proof.
  unfold minuteParser. destruct expression as [e|]; [|discriminate].
  destruct (String.eqb e minutely); [|discriminate].
  pose proof (Z.mul_succ_div_gt t 60000 ltac:(lia)) as H.
  destruct (endDate o) as [l|].
  - destruct (l <? (t / 60000 + 1) * 60000); intros [= <-]; lia.
  - intros [= <-]. lia.
Qed.

(** ** Validation *)



(** ** The interval form: first fire *)

(** C1 (as amended).  First fire of an interval scheduler (no previous
    fire time, no offset): the fire time is [now], the wall clock moved up
    to the start date if there is one, and the offset published in the
    repeat options of the instance is [every - (slot - now)], which lies in
    [0, every).  In scenario 1 the job has id "repeat:s1:1000" and delay 0,
    the index score is 1000, and the stored offset is 0. *)
Theorem first_fire_of_interval :
  (forall this id r jobName data opts override w e,
      validationError r = None ->
      limitReached r = false ->
      endDateReached r (reading (clock w)) = false ->
      every r = Some e -> 0 < e ->
      truthy (prevMillis opts) = false ->
      truthy (offset r) = false ->
      0 < reading (clock w) ->
      let now := fromStartDate r (reading (clock w)) in
      let slot := now / e * e + e in
      exists out w' job rp,
        upsertJobScheduler this id r jobName data opts override w = (out, w')
        /\ events w'
           = (events w
              ++ [ClientAwaited;
                  Executed
                    [scheduleCommand override id now data opts jobName r;
                     AddJob job]])%list
        /\ prevMillis (job_opts job) = Some now
        /\ jobId (job_opts job) = Some (getSchedulerNextJobId id now)
        /\ repeat (job_opts job) = Some rp
        /\ offset rp = Some (e - (slot - now))
        /\ 0 <= e - (slot - now) < e
        /\ (forall j, out = Ok (Some j) -> job_opts j = job_opts job))
  /\ (exists job rp,
        returned firstUpsert = Some job
        /\ job_id job = Some "repeat:s1:1000"
        /\ delay (job_opts job) = Some 0
        /\ repeat (job_opts job) = Some rp
        /\ offset rp = Some 0
        /\ index (store (snd firstUpsert)) !! "s1" = Some 1000).
Proof.
  split.
  - intros this id r jobName data opts override w e Hv Hl He Hevery Hpos
      Hprev Hoff Hclock now slot.
    assert (Hte : truthy e = true) by (apply truthy_number_true; lia).
    assert (Hnow : alignedNow r opts (reading (clock w)) = now).
    { unfold alignedNow. rewrite (orElse_falsy _ Hprev), fromPrevMillis_max.
      pose proof (fromStartDate_ge r (reading (clock w))). subst now. lia. }
    assert (Hrange : 0 <= e - (slot - now) < e).
    { subst slot. pose proof (Z.mod_pos_bound now e Hpos) as Hm.
      rewrite Z.mod_eq in Hm by lia. lia. }
    assert (Hcomp :
      everyNextMillis e now (orElse (prevMillis opts) 0) (offset r)
      = (now, Some (e - (slot - now)))).
    { unfold everyNextMillis. rewrite (orElse_falsy _ Hprev), Hoff.
      change (truthy 0 || false) with false. cbv beta iota zeta.
      rewrite Z.ltb_irrefl. fold slot.
      destruct (Z.ltb_spec (e - (slot - now)) 0); [lia | reflexivity]. }
    assert (Hnz : now <> 0).
    { pose proof (fromStartDate_ge r (reading (clock w))). subst now. lia. }
    destruct (upsert_every_executes this id r jobName data opts override w
                Hv Hl He e Hevery Hte) as (out & w' & Hrun & Hev & Hok).
    { rewrite Hnow, Hcomp. exact Hnz. }
    rewrite Hnow, Hcomp in Hev, Hok. simpl fst in *. simpl snd in *.
    eexists out, w', _, _. split; [exact Hrun|]. split; [exact Hev|].
    split; [reflexivity|]. split; [reflexivity|]. split; [reflexivity|].
    split; [reflexivity|]. split; [exact Hrange | exact Hok].
  - eexists _, _. split; [vm_compute; reflexivity|].
    repeat split; vm_compute; reflexivity.
Qed.

Lemma first_fire_of_interval_witness :
  exists out w' job rp,
    upsertJobScheduler queue "s1" everySecond "j" payload noOptions true
      (worldAt 1000 emptyStore) = (out, w')
    /\ events w'
       = [ClientAwaited;
          Executed
            [scheduleCommand true "s1" 1000 payload noOptions "j" everySecond;
             AddJob job]]
    /\ prevMillis (job_opts job) = Some 1000
    /\ jobId (job_opts job) = Some (getSchedulerNextJobId "s1" 1000)
    /\ repeat (job_opts job) = Some rp
    /\ offset rp = Some (1000 - (1000 / 1000 * 1000 + 1000 - 1000))
    /\ 0 <= 1000 - (1000 / 1000 * 1000 + 1000 - 1000) < 1000
    /\ (forall j, out = Ok (Some j) -> job_opts j = job_opts job).
Proof.
  apply (proj1 first_fire_of_interval queue "s1" everySecond "j" payload
           noOptions true (worldAt 1000 emptyStore) 1000);
    try reflexivity.
Defined.

Lemma first_offset_is_not_every :
  exists job rp,
    returned firstUpsert = Some job
    /\ repeat (job_opts job) = Some rp
    /\ offset rp = Some 0
    /\ offset rp <> Some 1000.
Proof.
  eexists _, _. split; [vm_compute; reflexivity|].
  split; [reflexivity|]. split; [reflexivity | discriminate].
Qed.

(** ** Horizons: the end date *)

(** C2.  When the repeat options carry an end date and the clock reads
    past it, the upsert is a no-op: the store is not contacted and nothing
    is written, and the call returns empty.  (Options that fail the
    validation of lines 44-60, which runs first, make it throw the
    validation error instead.) *)
Theorem endDate_passed_is_no_op this id r jobName data opts override w e :
  endDate r = Some e ->
  reading (clock w) > e ->
  exists out w',
    upsertJobScheduler this id r jobName data opts override w = (out, w')
    /\ events w' = events w
    /\ store w' = store w
    /\ (validationError r = None -> out = Ok None)
    /\ (forall message, out = Throw message ->
        validationError r = Some message).
Proof.
  intros Hend Hnow.
  assert (He : endDateReached r (reading (clock w)) = true).
  { unfold endDateReached. rewrite Hend. apply Z.gtb_gt. lia. }
  destruct (validationError r) as [m|] eqn:Hv.
  { eexists _, _. split; [exact (upsert_invalid _ _ _ _ _ _ _ _ _ Hv)|].
    repeat split; [discriminate | congruence]. }
  destruct (limitReached r) eqn:Hl.
  - eexists _, _. split; [exact (upsert_limit _ _ _ _ _ _ _ _ Hv Hl)|].
    rewrite events_afterWarning, store_afterWarning.
    repeat split; discriminate.
  - eexists _, _. split; [exact (upsert_endDate _ _ _ _ _ _ _ _ Hv Hl He)|].
    simpl. rewrite events_afterWarning, store_afterWarning.
    repeat split; discriminate.
Qed.

Lemma endDate_passed_is_no_op_witness :
  exists out w',
    upsertJobScheduler queue "s1" (everySecondUntil 500) "j" payload noOptions
      true (worldAt 1000 emptyStore) = (out, w')
    /\ events w' = events (worldAt 1000 emptyStore)
    /\ store w' = store (worldAt 1000 emptyStore)
    /\ (validationError (everySecondUntil 500) = None -> out = Ok None)
    /\ (forall message, out = Throw message ->
        validationError (everySecondUntil 500) = Some message).
Proof.
  apply (endDate_passed_is_no_op queue "s1" (everySecondUntil 500) "j" payload
           noOptions true (worldAt 1000 emptyStore) 500);
    reflexivity.
Defined.

(** ** Dead schedules of the default strategy *)

(** C3 (as amended).  When the pattern parses and the iteration fails
    ([next()] throws), the default strategy returns [undefined] and the
    upsert is a silent no-op: it returns empty, no exception escapes,
    no transaction is executed and the store, hence the definition, is
    as before. *)
Theorem iteration_failure_is_no_op parse queueName telemetrySetup id r
    jobName data opts override w :
  let this := constructor parse queueName None telemetrySetup in
  let now := alignedNow r opts (reading (clock w)) in
  validationError r = None ->
  limitReached r = false ->
  endDateReached r (reading (clock w)) = false ->
  truthy (every r) = false ->
  truthy (immediately r) = false ->
  parse (pattern r) r now = Interval None ->
  defaultRepeatStrategy parse now r jobName (tick (clock w))
  = (Ok None, tick (clock w))
  /\ exists w',
      upsertJobScheduler this id r jobName data opts override w = (Ok None, w')
      /\ events w' = (events w ++ [ClientAwaited])%list
      /\ store w' = store w.
Proof.
  intros this now Hv Hl He Hevery Hi Hp.
  assert (Hs : defaultRepeatStrategy parse now r jobName (tick (clock w))
               = (Ok None, tick (clock w))).
  { rewrite (defaultRepeatStrategy_parsed _ _ _ _ _ _ Hp), Hi. reflexivity. }
  split; [exact Hs|].
  eexists. rewrite (upsert_pattern _ _ _ _ _ _ _ _ Hv Hl He Hevery).
  change (repeatStrategy this) with (defaultRepeatStrategy parse).
  fold now. rewrite Hs. repeat split.
Qed.

Lemma iteration_failure_is_no_op_witness :
  defaultRepeatStrategy minuteParser
    (alignedNow (everyMinuteUntil 1500) noOptions 1000)
    (everyMinuteUntil 1500) "j" (tick (steadyClock 1000))
  = (Ok None, tick (steadyClock 1000))
  /\ exists w',
      upsertJobScheduler queue "s2" (everyMinuteUntil 1500) "j" payload
        noOptions true (worldAt 1000 emptyStore) = (Ok None, w')
      /\ events w' = [ClientAwaited]
      /\ store w' = emptyStore.
Proof.
  apply (iteration_failure_is_no_op minuteParser "q" None "s2"
           (everyMinuteUntil 1500) "j" payload noOptions true
           (worldAt 1000 emptyStore));
    reflexivity.
Defined.

Lemma parse_failure_escapes :
  fst (defaultRepeatStrategy minuteParser 1000 unparsable "j"
         (steadyClock 1000))
  = Throw "Error: Invalid cron expression"
  /\ fst unparsableUpsert = Throw "Error: Invalid cron expression"
  /\ fst unparsableUpsert <> Ok None.
Proof.
  split; [reflexivity|]. split; [vm_compute; reflexivity|].
  vm_compute. discriminate.
Qed.

(** ** Firing immediately *)

(** C4 (as amended).  With [immediately] set and a pattern that parses,
    the default strategy returns the reading of the wall clock it takes
    itself, whatever [millis] it is given; an upsert in the pattern form
    then fires at that reading [T] (when [T] is not 0). *)
Theorem immediately_fires_at_clock_reading parse :
  (forall millis o jobName c next,
      parse (pattern o) o millis = Interval next ->
      truthy (immediately o) = true ->
      defaultRepeatStrategy parse millis o jobName c
      = (Ok (Some (reading c)), tick c))
  /\ (forall queueName telemetrySetup id r jobName data opts override w next,
      let this := constructor parse queueName None telemetrySetup in
      let T := reading (tick (clock w)) in
      validationError r = None ->
      limitReached r = false ->
      endDateReached r (reading (clock w)) = false ->
      truthy (every r) = false ->
      truthy (immediately r) = true ->
      parse (pattern r) r (alignedNow r opts (reading (clock w)))
      = Interval next ->
      T <> 0 ->
      exists out w' job,
        upsertJobScheduler this id r jobName data opts override w = (out, w')
        /\ events w'
           = (events w
              ++ [ClientAwaited;
                  Executed
                    [scheduleCommand override id T data opts jobName r;
                     AddJob job]])%list
        /\ prevMillis (job_opts job) = Some T
        /\ jobId (job_opts job) = Some (getSchedulerNextJobId id T)).
Proof.
  split.
  - intros millis o jobName c next Hp Hi.
    rewrite (defaultRepeatStrategy_parsed _ _ _ _ _ _ Hp), Hi. reflexivity.
  - intros queueName telemetrySetup id r jobName data opts override w next
      this T Hv Hl He Hevery Hi Hp HT.
    rewrite (upsert_pattern _ _ _ _ _ _ _ _ Hv Hl He Hevery).
    change (repeatStrategy this) with (defaultRepeatStrategy parse).
    rewrite (defaultRepeatStrategy_parsed _ _ _ _ _ _ Hp), Hi.
    cbv beta iota zeta. fold T.
    assert (Ht : truthy T = true).
    { unfold truthy, truthy_number. destruct (Z.eqb_spec T 0); [lia|done]. }
    rewrite Ht.
    run_trace as (out & w' & Hrun & Hev & _).
    eexists out, w', _. split; [exact Hrun|]. split.
    + rewrite Hev. simpl. rewrite <- app_assoc. reflexivity.
    + split; reflexivity.
Qed.

Lemma immediately_fires_at_clock_reading_witness :
  exists out w' job,
    upsertJobScheduler queue "s4" everyMinuteNow "j" payload noOptions true
      (worldAt 1000 emptyStore) = (out, w')
    /\ events w'
       = [ClientAwaited;
          Executed
            [scheduleCommand true "s4" 1000 payload noOptions "j"
               everyMinuteNow;
             AddJob job]]
    /\ prevMillis (job_opts job) = Some 1000
    /\ jobId (job_opts job) = Some (getSchedulerNextJobId "s4" 1000).
Proof.
  apply (proj2 (immediately_fires_at_clock_reading minuteParser) "q" None
           "s4" everyMinuteNow "j" payload noOptions true
           (worldAt 1000 emptyStore) (Some 60000));
    try reflexivity.
  vm_compute. discriminate.
Defined.

Lemma immediately_ignores_given_now :
  fst (defaultRepeatStrategy minuteParser 5000 everyMinuteNow "j"
         (steadyClock 1000)) = Ok (Some 1000)
  /\ fst (defaultRepeatStrategy minuteParser 5000 everyMinuteNow "j"
            (steadyClock 1000)) <> Ok (Some 5000)
  /\ fst (defaultRepeatStrategy minuteParser 5000 everyMinuteNow "j"
            (steadyClock 2000)) = Ok (Some 2000).
Proof.
  split; [reflexivity|]. split; [|reflexivity]. vm_compute. discriminate.
Qed.

(** ** The fire time against the clock, the start date and the previous fire *)

(** C5 (as amended).  Whenever a call executes its transaction, the fire
    time [next] that every command of the transaction carries is not
    before the wall clock read by the call, nor before the start date, nor
    before the previous fire time: always in the interval form, and in the
    pattern form as soon as the strategy answers no earlier than the [now]
    it is given. *)
Theorem next_fire_not_before this id r jobName data opts override w out w'
    cmds :
  upsertJobScheduler this id r jobName data opts override w = (out, w') ->
  events w' = (events w ++ [ClientAwaited; Executed cmds])%list ->
  0 <= reading (clock w) ->
  (truthy (every r) = false ->
   forall millis c v c',
     repeatStrategy this millis r jobName c = (Ok (Some v), c') ->
     millis <= v) ->
  forall cmd next,
    In cmd cmds -> nextMillisOf cmd = Some next ->
    reading (clock w) <= next
    /\ (forall s, startDate r = Some s -> s <= next)
    /\ (forall p, prevMillis opts = Some p -> p <= next).
Proof.
  intros Hrun Hev Hclock Hstrategy cmd next Hin Hnext.
  destruct (upsert_executes _ _ _ _ _ _ _ _ _ _ _ Hrun Hev)
    as (n & off & c & _ & _ & _ & Hby & _ & -> & _ & _).
  assert (Hn : next = n).
  { destruct Hin as [<-|[<-|[]]].
    - unfold scheduleCommand in Hnext. destruct override; simpl in Hnext;
        congruence.
    - simpl in Hnext. congruence. }
  subst next.
  assert (Hge : alignedNow r opts (reading (clock w)) <= n).
  { destruct Hby as [(e & _ & _ & Hcomp & _) | (Hevery & Hs & _)].
    - pose proof (everyNextMillis_ge e (alignedNow r opts (reading (clock w)))
                    (orElse (prevMillis opts) 0) (offset r)) as H.
      rewrite Hcomp in H. exact H.
    - exact (Hstrategy Hevery _ _ _ _ Hs). }
  pose proof (alignedNow_ge_reading r opts (reading (clock w))).
  repeat split.
  - lia.
  - intros s Hs. pose proof (alignedNow_ge_startDate r opts _ s Hs Hclock). lia.
  - intros p Hp.
    pose proof (alignedNow_ge_prevMillis r opts (reading (clock w)) p Hp). lia.
Qed.

Lemma next_fire_not_before_witness :
  1000 <= 60000
  /\ (forall s, startDate everyMinute = Some s -> s <= 60000)
  /\ (forall p, prevMillis (withPrevMillis 5000) = Some p -> p <= 60000).
Proof.
  apply (next_fire_not_before queue "s2" everyMinute "j" payload
           (withPrevMillis 5000) true (worldAt 1000 emptyStore)
           (fst minutelyUpsert) (snd minutelyUpsert)
           (lastExecuted (snd minutelyUpsert)))
    with (cmd := scheduleCommand true "s2" 60000 payload (withPrevMillis 5000)
                   "j" everyMinute).
  - apply surjective_pairing.
  - vm_compute. reflexivity.
  - vm_compute. discriminate.
  - intros _. apply defaultRepeatStrategy_not_before; [reflexivity|].
    exact minuteParser_later.
  - vm_compute. left. reflexivity.
  - reflexivity.
Defined.

Lemma immediately_fires_before_prevMillis :
  exists job,
    returned immediateUpsert = Some job
    /\ index (store (snd immediateUpsert)) !! "s4" = Some 1000
    /\ prevMillis (job_opts job) = Some 1000
    /\ prevMillis (withPrevMillis 5000) = Some 5000
    /\ ~ 1000 >= Z.max (Z.max 1000 0) 5000.
Proof.
  eexists. split; [vm_compute; reflexivity|].
  split; [vm_compute; reflexivity|]. split; [reflexivity|].
  split; [reflexivity|]. lia.
Qed.

(** ** The interval form: subsequent fires *)

(** C6 (as amended).  Subsequent fire of an interval scheduler (a previous
    fire time above 0, or an offset that is not 0): the fire time is
    [slot + offset], and [now] when that lies before [now].  In scenario 2
    the job has id "repeat:s1:3000" and delay 1500, and the index score is
    3000. *)
Theorem subsequent_fire_of_interval :
  (forall this id r jobName data opts override w e,
      validationError r = None ->
      limitReached r = false ->
      endDateReached r (reading (clock w)) = false ->
      every r = Some e -> truthy e = true ->
      (exists p, prevMillis opts = Some p /\ 0 < p)
      \/ truthy (offset r) = true ->
      let now := alignedNow r opts (reading (clock w)) in
      let slot := now / e * e + e in
      let next := Z.max (slot + orElse (offset r) 0) now in
      fst (everyNextMillis e now (orElse (prevMillis opts) 0) (offset r))
      = next
      /\ (next <> 0 ->
          exists out w' job,
            upsertJobScheduler this id r jobName data opts override w
            = (out, w')
            /\ events w'
               = (events w
                  ++ [ClientAwaited;
                      Executed
                        [scheduleCommand override id next data opts jobName r;
                         AddJob job]])%list
            /\ prevMillis (job_opts job) = Some next
            /\ jobId (job_opts job) = Some (getSchedulerNextJobId id next)
            /\ (forall j, out = Ok (Some j) -> job_opts j = job_opts job)))
  /\ (exists job,
        returned secondUpsert = Some job
        /\ job_id job = Some "repeat:s1:3000"
        /\ delay (job_opts job) = Some 1500
        /\ index (store (snd secondUpsert)) !! "s1" = Some 3000).
Proof.
  split.
  - intros this id r jobName data opts override w e Hv Hl He Hevery Hte
      Hsub now slot next.
    assert (Hcomp :
      fst (everyNextMillis e now (orElse (prevMillis opts) 0) (offset r))
      = next).
    { rewrite everyNextMillis_clamped.
      assert (Ht : truthy (orElse (prevMillis opts) 0) || truthy (offset r)
                   = true).
      { destruct Hsub as [(p & Hp & Hpos) | Hoff].
        - rewrite Hp, orElse_Some.
          assert (truthy p = true) as -> by (apply truthy_number_true; lia).
          reflexivity.
        - rewrite Hoff. apply orb_true_r. }
      rewrite Ht. reflexivity. }
    split; [exact Hcomp|]. intros Hnz.
    destruct (upsert_every_executes this id r jobName data opts override w
                Hv Hl He e Hevery Hte) as (out & w' & Hrun & Hev & Hok).
    { fold now. rewrite Hcomp. exact Hnz. }
    fold now in Hev, Hok. rewrite Hcomp in Hev, Hok.
    eexists out, w', _. split; [exact Hrun|]. split; [exact Hev|].
    split; [reflexivity|]. split; [reflexivity | exact Hok].
  - eexists. split; [vm_compute; reflexivity|].
    repeat split; vm_compute; reflexivity.
Qed.

Lemma subsequent_fire_of_interval_witness :
  fst (everyNextMillis 1000
         (alignedNow (everySecondOffset 1000) (withPrevMillis 1000) 1500)
         (orElse (Some 1000) 0) (Some 1000)) = 3000
  /\ (3000 <> 0 ->
      exists out w' job,
        upsertJobScheduler queue "s1" (everySecondOffset 1000) "j" payload
          (withPrevMillis 1000) false (worldAt 1500 emptyStore) = (out, w')
        /\ events w'
           = [ClientAwaited;
              Executed
                [scheduleCommand false "s1" 3000 payload (withPrevMillis 1000)
                   "j" (everySecondOffset 1000);
                 AddJob job]]
        /\ prevMillis (job_opts job) = Some 3000
        /\ jobId (job_opts job) = Some (getSchedulerNextJobId "s1" 3000)
        /\ (forall j, out = Ok (Some j) -> job_opts j = job_opts job)).
Proof.
  apply (proj1 subsequent_fire_of_interval queue "s1" (everySecondOffset 1000)
           "j" payload (withPrevMillis 1000) false (worldAt 1500 emptyStore)
           1000);
    try reflexivity.
  left. exists 1000. split; reflexivity.
Defined.

(** An offset that is present but 0, without previous fire time, is a
    first fire: the call fires at [now] and publishes a new offset. *)
Lemma zero_offset_is_first_fire :
  offset (everySecondOffset 0) = Some 0
  /\ prevMillis noOptions = None
  /\ everyNextMillis 1000 1500 0 (Some 0) = (1500, Some 500)
  /\ Z.max (1500 / 1000 * 1000 + 1000 + 0) 1500 = 2000
  /\ exists job rp,
      returned zeroOffsetUpsert = Some job
      /\ job_id job = Some "repeat:s1:1500"
      /\ prevMillis (job_opts job) = Some 1500
      /\ prevMillis (job_opts job) <> Some 2000
      /\ repeat (job_opts job) = Some rp
      /\ offset rp = Some 500
      /\ index (store (snd zeroOffsetUpsert)) !! "s1" = Some 1500.
Proof.
  repeat (split; [reflexivity|]).
  eexists _, _. split; [vm_compute; reflexivity|].
  repeat split; try (vm_compute; reflexivity). discriminate.
Qed.

(** ** Horizons: the limit *)

(** C7.  When the limit is set and the iteration count ([count], or 0,
    plus 1) exceeds it, the upsert is a no-op: the store is not contacted,
    nothing is written, no instance is built, not even the clock is read,
    and the call returns empty.  (Options that fail the validation of lines
    44-60, which runs first, make it throw the validation error instead.) *)
Theorem limit_reached_is_no_op this id r jobName data opts override w l :
  limit r = Some l ->
  iterationCount r > l ->
  exists out w',
    upsertJobScheduler this id r jobName data opts override w = (out, w')
    /\ events w' = events w
    /\ store w' = store w
    /\ clock w' = clock w
    /\ (validationError r = None -> out = Ok None)
    /\ (forall message, out = Throw message ->
        validationError r = Some message).
Proof.
  intros Hlimit Hcount.
  assert (Hl : limitReached r = true).
  { unfold limitReached. rewrite Hlimit. apply Z.gtb_gt. lia. }
  destruct (validationError r) as [m|] eqn:Hv.
  { eexists _, _. split; [exact (upsert_invalid _ _ _ _ _ _ _ _ _ Hv)|].
    repeat split; [discriminate | congruence]. }
  eexists _, _. split; [exact (upsert_limit _ _ _ _ _ _ _ _ Hv Hl)|].
  rewrite events_afterWarning, store_afterWarning, clock_afterWarning.
  repeat split; discriminate.
Qed.

Lemma limit_reached_is_no_op_witness :
  exists out w',
    upsertJobScheduler queue "s3" twice "j" payload (withPrevMillis 2000)
      false (worldAt 3000 emptyStore) = (out, w')
    /\ events w' = events (worldAt 3000 emptyStore)
    /\ store w' = store (worldAt 3000 emptyStore)
    /\ clock w' = clock (worldAt 3000 emptyStore)
    /\ (validationError twice = None -> out = Ok None)
    /\ (forall message, out = Throw message ->
        validationError twice = Some message).
Proof.
  apply (limit_reached_is_no_op queue "s3" twice "j" payload
           (withPrevMillis 2000) false (worldAt 3000 emptyStore) 2);
    reflexivity.
Defined.

(** ** Validation of the repeat options *)






(** ** The next instance *)

(** C9.  The job record that a call builds and queues, for the fire time
    [next] that its schedule command writes, has the deterministic id
    ["repeat:" + schedulerId + ":" + next], the delay [max 0 (next - now)],
    the timestamp [now], [prevMillis = next], [repeatJobKey = schedulerId]
    and [repeat.count] equal to the iteration count of the call, which is
    the count of the repeat options, 0 when there is none, plus 1: the
    first instance is numbered 1.  [now] is the reading of the clock taken
    when the record is built, the last one of the call.  The job returned
    carries these options. *)
Theorem next_instance_record this id r jobName data opts override w out w'
    cmds :
  upsertJobScheduler this id r jobName data opts override w = (out, w') ->
  events w' = (events w ++ [ClientAwaited; Executed cmds])%list ->
  exists schedule job next now c rp,
    cmds = [schedule; AddJob job]
    /\ nextMillisOf schedule = Some next
    /\ clock w' = tick c /\ now = reading c
    /\ jobId (job_opts job) = Some ("repeat:" +:+ id +:+ ":" +:+ pretty next)
    /\ delay (job_opts job) = Some (Z.max 0 (next - now))
    /\ timestamp (job_opts job) = Some now
    /\ prevMillis (job_opts job) = Some next
    /\ repeatJobKey (job_opts job) = Some id
    /\ repeat (job_opts job) = Some rp
    /\ count rp = Some (iterationCount r)
    /\ count rp = Some (default 0 (count r) + 1)
    /\ (count r = None -> count rp = Some 1)
    /\ (forall j, out = Ok (Some j) -> job_opts j = job_opts job).
Proof.
  intros Hrun Hev.
  destruct (upsert_executes _ _ _ _ _ _ _ _ _ _ _ Hrun Hev)
    as (next & off & c & _ & _ & _ & _ & _ & -> & Hck & Hok).
  assert (Hcount : iterationCount r = default 0 (count r) + 1).
  { unfold iterationCount. destruct (count r) as [n|]; [|reflexivity].
    unfold truthy, truthy_number. destruct (Z.eqb_spec n 0) as [->|_];
      reflexivity. }
  eexists _, _, next, (reading c), c, _.
  split; [reflexivity|]. split.
  { unfold scheduleCommand. destruct override; reflexivity. }
  split; [exact Hck|]. split; [reflexivity|].
  split; [reflexivity|]. split.
  { simpl. f_equal. destruct (Z.ltb_spec (next - reading c) 0); lia. }
  do 5 (split; [reflexivity|]). split.
  { simpl. f_equal. exact Hcount. }
  split.
  { intros Hnone. simpl. rewrite Hcount, Hnone. reflexivity. }
  intros j Hj. destruct (Hok _ Hj) as [reply [= ->]]. reflexivity.
Qed.

Lemma next_instance_record_witness :
  exists schedule job c rp,
    lastExecuted (snd firstUpsert) = [schedule; AddJob job]
    /\ nextMillisOf schedule = Some 1000
    /\ clock (snd firstUpsert) = tick c /\ reading c = 1000
    /\ jobId (job_opts job) = Some "repeat:s1:1000"
    /\ delay (job_opts job) = Some 0
    /\ timestamp (job_opts job) = Some 1000
    /\ prevMillis (job_opts job) = Some 1000
    /\ repeatJobKey (job_opts job) = Some "s1"
    /\ repeat (job_opts job) = Some rp
    /\ count everySecond = None
    /\ count rp = Some 1
    /\ (forall j, fst firstUpsert = Ok (Some j) -> job_opts j = job_opts job).
Proof.
  destruct (next_instance_record queue "s1" everySecond "j" payload noOptions
              true (worldAt 1000 emptyStore) (fst firstUpsert)
              (snd firstUpsert) (lastExecuted (snd firstUpsert))
              (surjective_pairing _) eq_refl)
    as (schedule & job & next & now & c & rp & Hcmds & Hnext & Hck & Hnow
        & Hid & Hdelay & Hstamp & Hprev & Hkey & Hrp & _ & _ & Hfirst & Hj).
  assert (Hjob : prevMillis (job_opts job) = Some 1000).
  { vm_compute in Hcmds. injection Hcmds as _ <-. reflexivity. }
  assert (Hat : timestamp (job_opts job) = Some 1000).
  { vm_compute in Hcmds. injection Hcmds as _ <-. reflexivity. }
  assert (next = 1000) as -> by congruence.
  assert (now = 1000) as -> by congruence.
  exists schedule, job, c, rp.
  split; [exact Hcmds|]. split; [exact Hnext|]. split; [exact Hck|].
  split; [symmetry; exact Hnow|]. split; [exact Hid|].
  split; [exact Hdelay|]. split; [exact Hstamp|]. split; [exact Hprev|].
  split; [exact Hkey|]. split; [exact Hrp|]. split; [reflexivity|].
  split; [exact (Hfirst eq_refl) | exact Hj].
Defined.

(** ** Falsy fire times *)

(** C10.  In the pattern form, a fire time of 0 from the strategy is
    handled exactly as [undefined]: the call returns empty, executes no
    transaction and leaves the store as it was; all it did was to await the
    client. *)
Theorem zero_fire_time_is_dead this id r jobName data opts override w v c :
  validationError r = None ->
  limitReached r = false ->
  endDateReached r (reading (clock w)) = false ->
  truthy (every r) = false ->
  repeatStrategy this (alignedNow r opts (reading (clock w))) r jobName
    (tick (clock w)) = (Ok v, c) ->
  v = Some 0 \/ v = None ->
  exists w',
    upsertJobScheduler this id r jobName data opts override w = (Ok None, w')
    /\ w' = withEvent (withClock w c) ClientAwaited
    /\ events w' = (events w ++ [ClientAwaited])%list
    /\ store w' = store w.
Proof.
  intros Hv Hl He Hevery Hs Hfalsy.
  exists (withEvent (withClock w c) ClientAwaited).
  rewrite (upsert_pattern _ _ _ _ _ _ _ _ Hv Hl He Hevery), Hs.
  destruct Hfalsy as [-> | ->]; repeat split.
Qed.

Lemma zero_fire_time_is_dead_witness :
  exists w',
    upsertJobScheduler epochQueue "s2" everyMinute "j" payload noOptions true
      (worldAt 1000 emptyStore) = (Ok None, w')
    /\ w'
       = withEvent
           (withClock (worldAt 1000 emptyStore) (tick (steadyClock 1000)))
           ClientAwaited
    /\ events w' = [ClientAwaited]
    /\ store w' = emptyStore.
Proof.
  apply (zero_fire_time_is_dead epochQueue "s2" everyMinute "j" payload
           noOptions true (worldAt 1000 emptyStore) (Some 0)
           (tick (steadyClock 1000)));
    try reflexivity.
  left. reflexivity.
Defined.

(** * Further properties *)

(** ** The transaction, in full *)

Lemma find_errored_None rs :
  List.find errored rs = None -> existsb errored rs = false.
Proof.
  induction rs as [|r rs IH]; simpl; [reflexivity|].
  destruct (errored r); [discriminate | exact IH].
Qed.

(** The callback of [trace], as an equation. *)
Lemma trace_addNextJob_eq this multi id r off jobName data opts next w :
  let job :=
    nextJob jobName next id (instanceOptions this opts r off) data
      (iterationCount r) (reading (clock w)) in
  let cmds := (multi ++ [AddJob job])%list in
  let ran := runCommands (store w) cmds in
  let w2 :=
    withStore (withEvent (withClock w (tick (clock w))) (Executed cmds))
      (if existsb errored (fst ran) then store w else snd ran) in
  trace this PRODUCER "add" (name this +:+ "." +:+ jobName)
    (addNextJob multi id r off jobName data opts next) w
  = match List.find errored (fst ran) with
    | Some bad =>
        (Throw (transactionError id (default EmptyString (fst bad))), w2)
    | None =>
        match last (fst ran) with
        | Some l =>
            (Ok (Some (setId job (snd l))),
             match tracer this with
             | Some _ => withSpan w2 (producerSpan this jobName id (snd l))
             | None => w2
             end)
        | None =>
            (Throw "TypeError: Cannot read properties of undefined", w2)
        end
    end.
Proof.
  intros job cmds ran w2. subst w2 ran cmds job.
  unfold trace, addNextJob, createNextJob, bind, multi_exec, instanceOptions.
  destruct (tracer this) as [src|]; simpl;
    destruct (runCommands _ _) as [rs s']; simpl;
    destruct (List.find errored rs); [reflexivity| |reflexivity|];
    destruct (last rs); reflexivity.
Qed.

(** Every way through [upsertJobScheduler]. *)
Lemma upsert_paths this id r jobName data opts override w out w' :
  upsertJobScheduler this id r jobName data opts override w = (out, w') ->
  (exists m, validationError r = Some m /\ out = Throw m /\ w' = w)
  \/ (validationError r = None
      /\ ((limitReached r = true /\ out = Ok None /\ w' = afterWarning r w)
          \/ (limitReached r = false
              /\ endDateReached r (reading (clock w)) = true
              /\ out = Ok None
              /\ w' = withClock (afterWarning r w) (tick (clock w)))
          \/ (limitReached r = false
              /\ endDateReached r (reading (clock w)) = false
              /\ ((exists e c,
                      truthy (every r) = false
                      /\ repeatStrategy this
                           (alignedNow r opts (reading (clock w))) r jobName
                           (tick (clock w)) = (Throw e, c)
                      /\ out = Throw e /\ w' = withClock w c)
                  \/ (exists c,
                         out = Ok None
                         /\ w' = withEvent (withClock (afterWarning r w) c)
                                   ClientAwaited)
                  \/ (exists next off c,
                         computedBy this r jobName opts w next off c
                         /\ truthy next = true
                         /\ trace this PRODUCER "add"
                              (name this +:+ "." +:+ jobName)
                              (addNextJob
                                 [scheduleCommand override id next data opts
                                    jobName r]
                                 id r off jobName data opts next)
                              (withEvent (withClock (afterWarning r w) c)
                                 ClientAwaited)
                            = (out, w')))))).
Proof.
  intros Hrun.
  destruct (validationError r) as [m|] eqn:Hv.
  { rewrite (upsert_invalid _ _ _ _ _ _ _ _ _ Hv) in Hrun.
    injection Hrun as <- <-. left. eauto. }
  right. split; [reflexivity|].
  destruct (limitReached r) eqn:Hl.
  { rewrite (upsert_limit _ _ _ _ _ _ _ _ Hv Hl) in Hrun.
    injection Hrun as <- <-. left. auto. }
  right. destruct (endDateReached r (reading (clock w))) eqn:He.
  { rewrite (upsert_endDate _ _ _ _ _ _ _ _ Hv Hl He) in Hrun.
    injection Hrun as <- <-. left. auto. }
  right. do 2 (split; [reflexivity|]).
  destruct (truthy (every r)) eqn:Hevery.
  - destruct (truthy_optional_Some _ Hevery) as (e & Hsome & Hte).
    rewrite (upsert_every _ _ _ _ _ _ _ _ Hv Hl He e Hsome Hte) in Hrun.
    destruct (everyNextMillis e _ _ _) as [next off] eqn:Hcomp.
    simpl in Hrun. destruct (truthy next) eqn:Htn.
    + right. right. exists next, off, (tick (clock w)).
      split; [left; exists e; auto|]. split; [exact Htn | exact Hrun].
    + injection Hrun as <- <-. right. left. eauto.
  - assert (Hw : afterWarning r w = w).
    { unfold afterWarning. rewrite Hevery, andb_false_r. reflexivity. }
    rewrite Hw.
    rewrite (upsert_pattern _ _ _ _ _ _ _ _ Hv Hl He Hevery) in Hrun.
    destruct (repeatStrategy this _ r jobName (tick (clock w)))
      as [[v|e] c] eqn:Hs.
    + destruct v as [next|]; simpl in Hrun.
      * destruct (truthy next) eqn:Htn.
        -- right. right. exists next, (offset r), c.
           split; [right; auto|]. split; [exact Htn | exact Hrun].
        -- injection Hrun as <- <-. right. left. eauto.
      * injection Hrun as <- <-. right. left. eauto.
    + injection Hrun as <- <-. left. exists e, c. auto.
Qed.

Lemma trace_addNextJob_outcome this multi id r off jobName data opts next w
    out w' :
  trace this PRODUCER "add" (name this +:+ "." +:+ jobName)
    (addNextJob multi id r off jobName data opts next) w = (out, w') ->
  let job :=
    nextJob jobName next id (instanceOptions this opts r off) data
      (iterationCount r) (reading (clock w)) in
  events w' = (events w ++ [Executed (multi ++ [AddJob job])])%list
  /\ console w' = console w
  /\ ((exists reply, out = Ok (Some (setId job reply)))
      \/ (exists e, out = Throw (transactionError id e))).
Proof.
  intros Hrun job.
  destruct (trace_addNextJob this PRODUCER "add"
              (name this +:+ "." +:+ jobName) multi id r off jobName data
              opts next w) as (out0 & w0 & Hrun0 & Hev & _ & Hc & Hok & Hth).
  rewrite Hrun in Hrun0. injection Hrun0 as <- <-.
  split; [exact Hev|]. split; [exact Hc|].
  destruct out as [j|m].
  - left. destruct (Hok j eq_refl) as [reply ->]. eauto.
  - right. destruct (Hth m eq_refl) as [e ->]. exists e. reflexivity.
Qed.

Lemma console_afterWarning r w :
  console (afterWarning r w) = console w
  \/ console (afterWarning r w) = (console w ++ [immediatelyWarning])%list.
Proof.
  unfold afterWarning.
  destruct (truthy (immediately r) && truthy (every r)); auto.
Qed.

(** X1.  What one call does to the outside: it contacts the store not at
    all, or awaits the client and stops there, or awaits the client and
    executes one transaction of exactly two commands, the schedule command
    and the enqueueing of the instance whose id is the deterministic one;
    only in the last case can it return a job, and then it returns that
    instance, or it throws the transaction error.  On the console it
    writes at most the warning about [immediately]. *)
Theorem upsert_outside_effects this id r jobName data opts override w out w' :
  upsertJobScheduler this id r jobName data opts override w = (out, w') ->
  ((events w' = events w /\ store w' = store w
    /\ forall j, out <> Ok (Some j))
   \/ (events w' = (events w ++ [ClientAwaited])%list /\ store w' = store w
       /\ out = Ok None)
   \/ (exists next job,
          next <> 0
          /\ events w'
             = (events w
                ++ [ClientAwaited;
                    Executed
                      [scheduleCommand override id next data opts jobName r;
                       AddJob job]])%list
          /\ job_id job = Some (getSchedulerNextJobId id next)
          /\ ((exists reply, out = Ok (Some (setId job reply)))
              \/ (exists e, out = Throw (transactionError id e)))))
  /\ (console w' = console w
      \/ console w' = (console w ++ [immediatelyWarning])%list).
Proof.
  intros Hrun.
  destruct (upsert_paths _ _ _ _ _ _ _ _ _ _ Hrun)
    as [(m & _ & -> & ->)
       | (_ & [(_ & -> & ->)
              | [(_ & _ & -> & ->)
                | (_ & _ & [(e & c & _ & _ & -> & ->)
                           | [(c & -> & ->)
                             | (next & off & c & _ & Htn & Htr)]])]])].
  - split; [left|left]; repeat split; discriminate.
  - split; [left | apply console_afterWarning].
    rewrite events_afterWarning, store_afterWarning.
    repeat split; discriminate.
  - split; [left | apply console_afterWarning]. simpl.
    rewrite events_afterWarning, store_afterWarning.
    repeat split; discriminate.
  - split; [left | left; reflexivity]. repeat split; discriminate.
  - split; [right; left | apply console_afterWarning]. simpl.
    rewrite events_afterWarning, store_afterWarning. repeat split.
  - destruct (trace_addNextJob_outcome _ _ _ _ _ _ _ _ _ _ _ _ Htr)
      as (Hev & Hc & Hout).
    split.
    + right. right. eexists next, _. split.
      { apply truthy_number_true. exact Htn. }
      split.
      { rewrite Hev. simpl. rewrite events_afterWarning, <- app_assoc.
        reflexivity. }
      split; [reflexivity | exact Hout].
    + rewrite Hc. simpl. apply console_afterWarning.
Qed.

(** X2.  In the interval form the repeat strategy is never consulted: two
    schedulers that differ only in their strategy (hence also in the
    parser behind the default one) behave alike on every call whose
    [every] is set. *)
Theorem interval_ignores_strategy queueName strategy1 strategy2 tracing id r
    jobName data opts override w :
  truthy (every r) = true ->
  upsertJobScheduler (mkJobScheduler queueName strategy1 tracing) id r jobName
    data opts override w
  = upsertJobScheduler (mkJobScheduler queueName strategy2 tracing) id r
      jobName data opts override w.
Proof.
  intros Hevery.
  destruct (validationError r) as [m|] eqn:Hv.
  { rewrite !(upsert_invalid _ _ _ _ _ _ _ _ _ Hv). reflexivity. }
  destruct (limitReached r) eqn:Hl.
  { rewrite !(upsert_limit _ _ _ _ _ _ _ _ Hv Hl). reflexivity. }
  destruct (endDateReached r (reading (clock w))) eqn:He.
  { rewrite !(upsert_endDate _ _ _ _ _ _ _ _ Hv Hl He). reflexivity. }
  destruct (truthy_optional_Some _ Hevery) as (e & Hsome & Hte).
  rewrite !(upsert_every _ _ _ _ _ _ _ _ Hv Hl He e Hsome Hte).
  reflexivity.
Qed.

(** ** The instance and the horizons *)

(** X3.  The repeat options stored with an instance are those of the call
    without [startDate] and [immediately]: an instance fed back to the
    scheduler neither restarts the schedule nor fires immediately again.
    The pattern, the interval, the end date, the limit and the time zone
    are kept, and so are the template options the scheduler does not
    know. *)
Theorem instance_repeat_options_filtered this id r jobName data opts override
    w out w' schedule job :
  upsertJobScheduler this id r jobName data opts override w = (out, w') ->
  events w'
  = (events w ++ [ClientAwaited; Executed [schedule; AddJob job]])%list ->
  exists rp,
    repeat (job_opts job) = Some rp
    /\ startDate rp = None /\ immediately rp = None
    /\ pattern rp = pattern r /\ every rp = every r
    /\ endDate rp = endDate r /\ limit rp = limit r /\ tz rp = tz r
    /\ others (job_opts job) = others opts
    /\ job_name job = jobName /\ job_data job = data.
Proof.
  intros Hrun Hev.
  destruct (upsert_executes _ _ _ _ _ _ _ _ _ _ _ Hrun Hev)
    as (next & off & c & _ & _ & _ & _ & _ & [= -> ->] & _).
  eexists. split; [reflexivity|]. repeat split.
Qed.

(** X4.  A call that executes its transaction is within both horizons: the
    count it writes on the instance does not exceed the limit, and the
    clock it read is not past the end date. *)
Theorem executed_within_horizons this id r jobName data opts override w out w'
    schedule job :
  upsertJobScheduler this id r jobName data opts override w = (out, w') ->
  events w'
  = (events w ++ [ClientAwaited; Executed [schedule; AddJob job]])%list ->
  (forall l, limit r = Some l ->
     exists rp n,
       repeat (job_opts job) = Some rp /\ count rp = Some n /\ n <= l)
  /\ (forall e, endDate r = Some e -> reading (clock w) <= e).
Proof.
  intros Hrun Hev.
  destruct (upsert_executes _ _ _ _ _ _ _ _ _ _ _ Hrun Hev)
    as (next & off & c & _ & Hl & He & _ & _ & [= -> ->] & _).
  split.
  - intros l Hlimit. eexists _, _. split; [reflexivity|].
    split; [reflexivity|]. unfold limitReached in Hl. rewrite Hlimit in Hl.
    rewrite Z.gtb_ltb in Hl. apply Z.ltb_ge in Hl. exact Hl.
  - intros e Hend. unfold endDateReached in He. rewrite Hend in He.
    rewrite Z.gtb_ltb in He. apply Z.ltb_ge in He. exact He.
Qed.

(** X5.  The iteration count runs on: when the repeat options of an
    instance are fed back (as the worker does for the next upsert), the
    iteration count is one more than the one the instance was created
    with, as long as counts are not negative. *)
Theorem iteration_count_runs_on this id r jobName data opts override w out w'
    schedule job :
  upsertJobScheduler this id r jobName data opts override w = (out, w') ->
  events w'
  = (events w ++ [ClientAwaited; Executed [schedule; AddJob job]])%list ->
  (forall c, count r = Some c -> 0 <= c) ->
  exists rp,
    repeat (job_opts job) = Some rp
    /\ 1 <= iterationCount r
    /\ iterationCount rp = iterationCount r + 1.
Proof.
  intros Hrun Hev Hcount.
  destruct (upsert_executes _ _ _ _ _ _ _ _ _ _ _ Hrun Hev)
    as (next & off & c & _ & _ & _ & _ & _ & [= -> ->] & _).
  eexists. split; [reflexivity|].
  assert (H1 : 1 <= iterationCount r).
  { unfold iterationCount. destruct (count r) as [n|]; [|lia].
    specialize (Hcount n eq_refl). destruct (truthy n); lia. }
  split; [exact H1|].
  unfold iterationCount at 1. simpl.
  assert (truthy (iterationCount r) = true) as ->
      by (apply truthy_number_true; lia).
  reflexivity.
Qed.

(** ** Strings and numbers *)

Lemma split_not_empty s : split s <> [].
Proof.
  destruct s as [|c s]; simpl; [discriminate|].
  destruct (isColon c); [discriminate|]. destruct (split s); discriminate.
Qed.

Lemma join_split s : join (split s) = s.
Proof.
  induction s as [|c s IH]; simpl; [reflexivity|].
  destruct (isColon c) eqn:Hc.
  - unfold isColon, charCode in Hc. apply Z.eqb_eq in Hc.
    assert (c = Ascii.ascii_of_nat 58) as ->.
    { rewrite <- (Ascii.ascii_nat_embedding c). f_equal. lia. }
    pose proof (split_not_empty s) as Hne.
    destruct (split s) as [|p ps]; [done|]. simpl in *.
    rewrite IH. reflexivity.
  - pose proof (split_not_empty s) as Hne.
    destruct (split s) as [|p ps]; [done|].
    destruct ps; simpl in *; rewrite <- IH; reflexivity.
Qed.

Lemma split_colonFree s : colonFree s = true -> split s = [s].
Proof.
  induction s as [|c s IH]; simpl; [reflexivity|].
  intros [Hc Hs]%andb_true_iff. apply negb_true_iff in Hc. rewrite Hc.
  rewrite (IH Hs). reflexivity.
Qed.

Lemma split_app_colon a s :
  colonFree a = true -> split (a +:+ ":" +:+ s) = a :: split s.
Proof.
  induction a as [|c a IH]; simpl; [reflexivity|].
  intros [Hc Ha]%andb_true_iff. apply negb_true_iff in Hc. rewrite Hc.
  rewrite (IH Ha). reflexivity.
Qed.

Lemma isDigit_not_colon c : isDigit c = true -> isColon c = false.
Proof.
  unfold isDigit, isColon. intros [H1 H2]%andb_true_iff.
  apply Z.leb_le in H1, H2. apply Z.eqb_neq. lia.
Qed.

Lemma allDigits_colonFree s : allDigits s = true -> colonFree s = true.
Proof.
  induction s as [|c s IH]; simpl; [reflexivity|].
  intros [Hc Hs]%andb_true_iff. rewrite (isDigit_not_colon _ Hc), (IH Hs).
  reflexivity.
Qed.

Lemma pretty_N_char_digit y :
  (y < 10)%N ->
  isDigit (pretty_N_char y) = true
  /\ digitValue (pretty_N_char y) = Some (Z.of_N y).
Proof.
  intros Hy.
  assert (y = 0 \/ y = 1 \/ y = 2 \/ y = 3 \/ y = 4 \/ y = 5 \/ y = 6
          \/ y = 7 \/ y = 8 \/ y = 9)%N as H by lia.
  repeat (destruct H as [-> | H]; [split; reflexivity|]).
  subst y. split; reflexivity.
Qed.

Lemma allDigits_pretty_N_go x s :
  allDigits s = true -> allDigits (pretty_N_go x s) = true.
Proof.
  revert s. induction (N.lt_wf_0 x) as [x _ IH]; intros s Hs.
  assert (x = 0 \/ 0 < x)%N as [-> | Hx] by lia.
  - rewrite pretty_N_go_0. exact Hs.
  - rewrite pretty_N_go_step by exact Hx.
    apply IH; [apply N.div_lt; lia|]. simpl.
    destruct (pretty_N_char_digit (N.modulo x 10)) as [-> _];
      [apply N.mod_lt; lia | exact Hs].
Qed.

Lemma parseDigits_pretty_N_go x :
  (0 < x)%N ->
  exists k : nat,
    forall s acc,
      parseDigits 10 (pretty_N_go x s) acc
      = parseDigits 10 s
          (Some (default 0 acc * 10 ^ Z.of_nat k + Z.of_N x)).
Proof.
  induction (N.lt_wf_0 x) as [x _ IH]. intros Hx.
  pose proof (N.mod_lt x 10 ltac:(lia)) as Hmod.
  pose proof (N.div_mod x 10 ltac:(lia)) as Hdm.
  assert (Hlt : (N.div x 10 < x)%N) by (apply N.div_lt; lia).
  assert (Hgo : forall s,
    pretty_N_go x s
    = pretty_N_go (N.div x 10) (String (pretty_N_char (N.modulo x 10)) s))
    by (intros s; apply pretty_N_go_step, Hx).
  remember (N.div x 10) as q eqn:Hq. remember (N.modulo x 10) as m eqn:Hm.
  assert (Hstep : forall s acc,
    parseDigits 10 (String (pretty_N_char m) s) acc
    = parseDigits 10 s (Some (default 0 acc * 10 + Z.of_N m))).
  { intros s acc. simpl.
    destruct (pretty_N_char_digit m Hmod) as [_ ->].
    assert ((Z.of_N m <? 10) = true) as ->; [|reflexivity].
    apply Z.ltb_lt. lia. }
  destruct (N.eq_0_gt_0_cases q) as [H0 | Hpos].
  - exists 1%nat. intros s acc.
    rewrite Hgo, H0, pretty_N_go_0, Hstep. apply f_equal, f_equal. lia.
  - destruct (IH q) as [k Hk]; [exact Hlt | exact Hpos|].
    exists (S k). intros s acc.
    rewrite Hgo, Hk, Hstep. cbn [default].
    apply f_equal, f_equal.
    rewrite Nat2Z.inj_succ, Z.pow_succ_r by lia.
    assert (Z.of_N x = 10 * Z.of_N q + Z.of_N m) as -> by lia.
    unfold id. ring.
Qed.

Lemma isDigit_code c : isDigit c = true -> 48 <= charCode c <= 57.
Proof.
  unfold isDigit. intros [H1 H2]%andb_true_iff.
  apply Z.leb_le in H1, H2. lia.
Qed.

Lemma code_eqb_false c n :
  isDigit c = true -> (n < 48 \/ 57 < n) -> Z.eqb (charCode c) n = false.
Proof. intros Hc%isDigit_code Hn. apply Z.eqb_neq. lia. Qed.

Lemma readRadix_allDigits s : allDigits s = true -> readRadix s = (10, s).
Proof.
  destruct s as [|c [|x s]]; try reflexivity. simpl.
  intros [_ [Hx _]%andb_true_iff]%andb_true_iff. unfold readRadix.
  rewrite !(code_eqb_false x) by (exact Hx || lia).
  rewrite andb_false_r. reflexivity.
Qed.

Lemma trimStart_digit c s :
  isDigit c = true -> trimStart (String c s) = String c s.
Proof.
  intros Hc%isDigit_code. cbn [trimStart].
  assert (isWhiteSpace c = false) as ->; [|reflexivity].
  unfold isWhiteSpace.
  destruct (Z.leb_spec 9 (charCode c)), (Z.leb_spec (charCode c) 13),
    (Z.eqb_spec (charCode c) 32); simpl; lia || reflexivity.
Qed.

(** On a string of digits with neither sign nor prefix, [parseInt] reads
    the digits in radix 10. *)
Lemma parseInt_allDigits s :
  allDigits s = true ->
  parseInt s
  = match parseDigits 10 s None with
    | Some n => Number n
    | None => NaN
    end.
Proof.
  intros Hs. unfold parseInt. destruct s as [|c s]; [reflexivity|].
  pose proof Hs as [Hc _]%andb_true_iff.
  rewrite (trimStart_digit c s Hc). unfold readSign.
  rewrite !(code_eqb_false c) by (exact Hc || lia).
  rewrite (readRadix_allDigits _ Hs).
  destruct (parseDigits 10 (String c s) None) as [n|]; [|reflexivity].
  f_equal. lia.
Qed.

Lemma parseInt_pretty_pos p :
  parseDigits 10 (pretty (N.pos p)) None = Some (Z.pos p)
  /\ allDigits (pretty (N.pos p)) = true.
Proof.
  unfold pretty, pretty_N. rewrite decide_False by discriminate. split.
  - destruct (parseDigits_pretty_N_go (N.pos p)) as [k Hk]; [lia|].
    rewrite Hk. reflexivity.
  - apply allDigits_pretty_N_go. reflexivity.
Qed.

(** A number printed in decimal and parsed back is itself. *)
Lemma parseInt_pretty (n : Z) : parseInt (pretty n) = Number n.
Proof.
  destruct n as [|p|p]; [reflexivity| |].
  - destruct (parseInt_pretty_pos p) as [Hd Ha].
    change (pretty (Z.pos p)) with (pretty (N.pos p)).
    rewrite (parseInt_allDigits _ Ha), Hd. reflexivity.
  - destruct (parseInt_pretty_pos p) as [Hd Ha].
    change (pretty (Z.neg p)) with (String (Ascii.ascii_of_nat 45)
                                      (pretty (N.pos p))).
    unfold parseInt. cbn [trimStart].
    change (isWhiteSpace (Ascii.ascii_of_nat 45)) with false.
    cbv beta iota. unfold readSign.
    change (Z.eqb (charCode (Ascii.ascii_of_nat 45)) 45) with true.
    cbv beta iota.
    rewrite (readRadix_allDigits _ Ha), Hd. reflexivity.
Qed.

Lemma colonFree_pretty (n : Z) : colonFree (pretty n) = true.
Proof.
  destruct n as [|p|p]; [reflexivity| |].
  - apply allDigits_colonFree, (parseInt_pretty_pos p).
  - change (pretty (Z.neg p)) with (String (Ascii.ascii_of_nat 45)
                                      (pretty (N.pos p))).
    simpl. apply allDigits_colonFree, (parseInt_pretty_pos p).
Qed.

(** ** The deterministic job id *)

Lemma colonFree_app_colon a s : colonFree (a +:+ ":" +:+ s) = false.
Proof.
  induction a as [|c a IH]; simpl; [reflexivity|].
  rewrite IH. apply andb_false_r.
Qed.

Lemma app_colon_inj a b p q :
  colonFree p = true -> colonFree q = true ->
  a +:+ ":" +:+ p = b +:+ ":" +:+ q -> a = b /\ p = q.
Proof.
  intros Hp Hq. revert b. induction a as [|c a IH]; intros [|d b] H.
  - injection H as H. auto.
  - injection H as _ H.
    change (p = b +:+ ":" +:+ q) in H.
    rewrite H, colonFree_app_colon in Hp. discriminate.
  - injection H as _ H.
    change (a +:+ ":" +:+ p = q) in H.
    rewrite <- H, colonFree_app_colon in Hq. discriminate.
  - injection H as -> H. destruct (IH _ H) as [-> ->]. auto.
Qed.

(** X6.  The id of an instance determines both the scheduler and the fire
    time: two instances have the same id only if they belong to the same
    scheduler and fire at the same millisecond, whatever colons the
    scheduler ids contain. *)
Theorem getSchedulerNextJobId_inj id1 id2 (n1 n2 : Z) :
  getSchedulerNextJobId id1 n1 = getSchedulerNextJobId id2 n2 ->
  id1 = id2 /\ n1 = n2.
Proof.
  unfold getSchedulerNextJobId. intros H.
  apply (inj (String.app "repeat:")) in H.
  apply app_colon_inj in H as [-> H]; try apply colonFree_pretty.
  split; [reflexivity|]. exact (inj pretty _ _ H).
Qed.

(** ** The arithmetic of the interval form *)

(** X7.  The phase of an interval schedule: the first fire at [first]
    publishes the offset [first mod every], and a later upsert that is
    given this offset and a previous fire time fires strictly after its
    [now], no later than [every] plus the offset after it, and a whole
    number of intervals away from the first fire. *)
Theorem interval_keeps_phase e first now p :
  0 < e -> p <> 0 ->
  let published := everyNextMillis e first 0 None in
  let next := fst (everyNextMillis e now p (snd published)) in
  published = (first, Some (first mod e))
  /\ now < next <= now + e + first mod e
  /\ (next - first) mod e = 0.
Proof.
  intros He Hp published next.
  assert (Hpub : published = (first, Some (first mod e))).
  { subst published. unfold everyNextMillis.
    change (truthy 0 || truthy None) with false. cbv beta iota zeta.
    rewrite Z.ltb_irrefl.
    pose proof (Z.mod_pos_bound first e He) as Hm.
    rewrite Z.mod_eq in * by lia.
    destruct (Z.ltb_spec (e - (first / e * e + e - first)) 0); [lia|].
    do 2 f_equal. lia. }
  split; [exact Hpub|].
  subst next. rewrite Hpub. cbn [snd].
  rewrite everyNextMillis_clamped.
  assert (truthy p = true) as -> by (apply truthy_number_true; exact Hp).
  cbn [orb]. rewrite orElse_Some.
  pose proof (Z.mod_pos_bound first e He) as Hf.
  pose proof (Z.mod_pos_bound now e He) as Hn.
  assert (Hslot : now / e * e + e = now - now mod e + e)
    by (rewrite Z.mod_eq by lia; lia).
  rewrite Z.max_l by lia. split; [lia|].
  replace (now / e * e + e + first mod e - first)
    with ((now / e + 1 - first / e) * e)
    by (rewrite (Z.mod_eq first e) by lia; ring).
  apply Z.mod_mul. lia.
Qed.

(** X8.  In the interval form with a positive interval and no negative
    offset, the fire time written is strictly after the previous fire time
    handed in, so the instance never takes the id of the previous one. *)
Theorem interval_fires_after_previous this id r jobName data opts override w
    out w' schedule job e p :
  upsertJobScheduler this id r jobName data opts override w = (out, w') ->
  events w'
  = (events w ++ [ClientAwaited; Executed [schedule; AddJob job]])%list ->
  every r = Some e -> 0 < e ->
  prevMillis opts = Some p ->
  (forall o, offset r = Some o -> 0 <= o) ->
  exists next,
    nextMillisOf schedule = Some next
    /\ prevMillis (job_opts job) = Some next
    /\ p < next
    /\ job_id job <> Some (getSchedulerNextJobId id p).
Proof.
  intros Hrun Hev Hevery He Hprev Hoff.
  destruct (upsert_executes _ _ _ _ _ _ _ _ _ _ _ Hrun Hev)
    as (next & off & c & _ & _ & _ & Hby & Htn & [= -> ->] & _).
  assert (Hlt : p < next).
  { destruct Hby as [(e' & Hsome & _ & Hcomp & _) | (Hno & _)].
    - rewrite Hevery in Hsome. injection Hsome as <-.
      pose proof (everyNextMillis_clamped e
                    (alignedNow r opts (reading (clock w)))
                    (orElse (prevMillis opts) 0) (offset r)) as Hc.
      rewrite Hcomp in Hc. cbn [fst] in Hc.
      pose proof (alignedNow_ge_prevMillis r opts (reading (clock w)) p Hprev)
        as Hge.
      set (now := alignedNow r opts (reading (clock w))) in *.
      pose proof (Z.mod_pos_bound now e He) as Hm.
      assert (Hslot : now / e * e + e = now - now mod e + e)
        by (rewrite Z.mod_eq by lia; lia).
      assert (Ho : 0 <= orElse (offset r) 0).
      { unfold orElse. destruct (offset r) as [o|]; [|lia].
        specialize (Hoff o eq_refl). destruct (truthy o); lia. }
      rewrite Hprev, orElse_Some in Hc.
      destruct (truthy p || truthy (offset r)) eqn:Hsub; [lia|].
      apply orb_false_iff in Hsub as [Hp0 _].
      apply truthy_number_true in Htn.
      assert (p = 0).
      { unfold truthy, truthy_number in Hp0.
        destruct (Z.eqb_spec p 0); [assumption | discriminate]. }
      lia.
    - rewrite Hevery in Hno. change (truthy e = false) in Hno.
      assert (truthy e = true) by (apply truthy_number_true; lia).
      congruence. }
  exists next. split.
  { unfold scheduleCommand. destruct override; reflexivity. }
  split; [reflexivity|]. split; [exact Hlt|].
  intros H.
  change (Some (getSchedulerNextJobId id next)
          = Some (getSchedulerNextJobId id p)) in H.
  apply (inj Some), (inj (String.app "repeat:")) in H.
  apply app_colon_inj in H as [_ H]; try apply colonFree_pretty.
  apply (inj pretty) in H. lia.
Qed.

(** ** Telemetry *)

Lemma spans_afterWarning r w : spans (afterWarning r w) = spans w.
Proof.
  unfold afterWarning.
  destruct (truthy (immediately r) && truthy (every r)); reflexivity.
Qed.

(** X9.  The attributes of the span are set only once the transaction has
    gone through: a call that returns a job under a tracer records one
    producer span named after the queue and the job, with the scheduler id
    and the id of the job; any other call, and any call without tracer,
    records nothing. *)
Theorem span_only_on_success this id r jobName data opts override w out w' :
  upsertJobScheduler this id r jobName data opts override w = (out, w') ->
  spans w'
  = match out, tracer this with
    | Ok (Some job), Some _ =>
        (spans w ++ [producerSpan this jobName id (job_id job)])%list
    | _, _ => spans w
    end.
Proof.
  intros Hrun.
  destruct (upsert_paths _ _ _ _ _ _ _ _ _ _ Hrun)
    as [(m & _ & -> & ->)
       | (_ & [(_ & -> & ->)
              | [(_ & _ & -> & ->)
                | (_ & _ & [(e & c & _ & _ & -> & ->)
                           | [(c & -> & ->)
                             | (next & off & c & _ & Htn & Htr)]])]])];
    try (simpl; rewrite ?spans_afterWarning; reflexivity).
  rewrite trace_addNextJob_eq in Htr.
  destruct (List.find errored _) as [bad|].
  { injection Htr as <- <-. simpl. apply spans_afterWarning. }
  destruct (last _) as [l|].
  - injection Htr as <- <-. destruct (tracer this); simpl;
      rewrite spans_afterWarning; reflexivity.
  - injection Htr as <- <-. simpl. apply spans_afterWarning.
Qed.

(** ** The scheduler and the store *)

(** X10.  With the scripts and the enqueuer as the store is modelled: after
    an upsert in override mode that returns a job, the definition stored
    under the id carries the job name, the payload (an empty object when
    there is none), the template options and the timing fields of the
    call, the index maps the id to the fire time of the job, and the
    delayed set holds the returned job under its id.  In non-override mode
    no definition is written, whatever the outcome. *)
Theorem upsert_store_afterwards this id r jobName data opts override w out w' :
  upsertJobScheduler this id r jobName data opts override w = (out, w') ->
  (override = true ->
   forall job, out = Ok (Some job) ->
     exists next,
       prevMillis (job_opts job) = Some next
       /\ index (store w') !! id = Some next
       /\ definitions (store w') !! id
          = Some
              (mkSchedulerDefinition
                 (mkSchedulerTemplate jobName
                    (if truthy (endDate r) then endDate r else None) (tz r)
                    (pattern r) (every r))
                 (default (JObject []) data) opts)
       /\ job_id job = Some (getSchedulerNextJobId id next)
       /\ delayedJobs (store w') !! getSchedulerNextJobId id next = Some job)
  /\ (override = false -> definitions (store w') = definitions (store w)).
Proof.
  intros Hrun.
  destruct (upsert_paths _ _ _ _ _ _ _ _ _ _ Hrun)
    as [(m & _ & -> & ->)
       | (_ & [(_ & -> & ->)
              | [(_ & _ & -> & ->)
                | (_ & _ & [(e & c & _ & _ & -> & ->)
                           | [(c & -> & ->)
                             | (next & off & c & _ & Htn & Htr)]])]])];
    try (split; [intros _ job [=] | intros _; simpl;
                                    rewrite ?store_afterWarning; reflexivity]).
  rewrite trace_addNextJob_eq in Htr. cbn [app] in Htr.
  set (w1 := withEvent (withClock (afterWarning r w) c) ClientAwaited) in *.
  assert (Hs1 : store w1 = store w) by apply store_afterWarning.
  set (job0 := nextJob jobName next id (instanceOptions this opts r off) data
                 (iterationCount r) (reading (clock w1))) in *.
  split.
  - intros -> job ->. exists next.
    cbn [scheduleCommand runCommands runCommand] in Htr.
    unfold addJobSchedulerScript, addJobScript in Htr.
    cbn [job_id job0 nextJob delayedJobs] in Htr.
    destruct (delayedJobs (store w1) !! getSchedulerNextJobId id next)
      eqn:Hthere; cbn in Htr; [discriminate|].
    injection Htr as Hjob <-.
    assert (Hj : job = job0) by (rewrite <- Hjob; reflexivity).
    subst job.
    split; [reflexivity|].
    destruct (tracer this); cbn;
      rewrite !lookup_insert_eq; repeat split.
  - intros ->. cbn [scheduleCommand runCommands runCommand] in Htr.
    unfold updateJobSchedulerNextMillisScript, addJobScript in Htr.
    cbn [job_id job0 nextJob] in Htr. rewrite <- Hs1.
    destruct (index (store w1) !! id);
      cbn [delayedJobs] in Htr;
      destruct (delayedJobs (store w1) !! getSchedulerNextJobId id next);
      cbn in Htr; injection Htr as <- <-;
      destruct (tracer this); reflexivity.
Qed.

(** ** Decoding legacy keys *)

(** X11.  A legacy key [name:id:endDate:tz:pattern] decodes to its parts
    when the name, the id and the time zone hold no colon: the pattern
    comes back whole, colons included, the end date as a number, and an
    empty part or an end date of 0 as null. *)
Theorem keyToData_legacy_key name schedulerId (endDate : Z) tz cron next :
  colonFree name = true -> colonFree schedulerId = true -> colonFree tz = true ->
  let key :=
    name +:+ ":" +:+ schedulerId +:+ ":" +:+ pretty endDate +:+ ":" +:+ tz +:+ ":"
    +:+ cron in
  keyToData key next
  = mkSchedulerJson key (Some name) (stringOrNull (Some schedulerId))
      (if Z.eqb endDate 0 then None else Some endDate)
      (stringOrNull (Some tz)) (stringOrNull (Some cron)) None None next.
Proof.
  intros Hname Hid Htz key. unfold keyToData.
  assert (Hsplit : split key = name :: schedulerId :: pretty endDate :: tz :: split cron).
  { subst key.
    rewrite (split_app_colon name _ Hname), (split_app_colon schedulerId _ Hid),
      (split_app_colon _ _ (colonFree_pretty endDate)),
      (split_app_colon tz _ Htz).
    reflexivity. }
  rewrite Hsplit. cbn [lookup list_lookup drop].
  unfold parseIntOf. cbn [default from_option id].
  rewrite parseInt_pretty. change (drop 0 (split cron)) with (split cron).
  rewrite join_split. unfold numberOrNull.
  unfold truthy, truthy_number. destruct (Z.eqb endDate 0); reflexivity.
Qed.

(** X12.  A key without colon is a bare name: it decodes to that name and
    nothing else.  For any key at all, the name is defined and the
    descriptor keeps the key and the next fire time it was given. *)
Theorem keyToData_bare_name key next :
  (colonFree key = true ->
   keyToData key next
   = mkSchedulerJson key (Some key) None None None None None None next)
  /\ (exists name, json_name (keyToData key next) = Some name)
  /\ json_key (keyToData key next) = key
  /\ json_next (keyToData key next) = next.
Proof.
  split; [|split; [|split; reflexivity]].
  - intros Hkey. unfold keyToData. rewrite (split_colonFree _ Hkey).
    reflexivity.
  - unfold keyToData. cbn [json_name].
    pose proof (split_not_empty key). destruct (split key); [done|].
    eexists. reflexivity.
Qed.

(** ** Listing and getting schedulers *)

Lemma transformSchedulerData_key_next codec key jobData next d :
  transformSchedulerData codec key jobData next = Ok d ->
  json_key d = key /\ json_next d = next.
Proof.
  unfold transformSchedulerData. destruct jobData as [h|].
  - destruct (truthy (h !! "data") || truthy (h !! "opts")).
    + destruct (getTemplateFromJSON _ _ _); [|discriminate].
      intros [= <-]. auto.
    + intros [= <-]. auto.
  - intros [= <-]. auto.
Qed.

Lemma schedulersOf_withScores codec prefix client entries :
  schedulersOf codec prefix client (withScores entries)
  = map (fun entry =>
           getSchedulerData codec prefix client (fst entry)
             (Some (Number (snd entry))))
      entries.
Proof.
  induction entries as [|[m s] entries IH]; [reflexivity|].
  cbn [withScores flat_map app fst snd schedulersOf map].
  fold (withScores entries). rewrite IH. unfold parseIntOf.
  cbn [default from_option id]. rewrite parseInt_pretty. reflexivity.
Qed.

Lemma Promise_all_Ok {A B} (f : A -> Outcome B) (key : B -> string)
    (next : B -> option Num) (g : A -> string) (h : A -> option Num) l ds :
  (forall a d, f a = Ok d -> key d = g a /\ next d = h a) ->
  Promise_all (map f l) = Ok ds ->
  map key ds = map g l /\ map next ds = map h l.
Proof.
  intros Hf. revert ds. induction l as [|a l IH]; intros ds; simpl.
  - intros [= <-]. auto.
  - destruct (f a) as [d|e] eqn:Hd; [|discriminate].
    destruct (Promise_all (map f l)) as [ds'|e]; [|discriminate].
    intros [= <-]. destruct (Hf a d Hd) as [Hk Hn].
    destruct (IH ds' eq_refl) as [Hks Hns]. simpl.
    rewrite Hk, Hn, Hks, Hns. auto.
Qed.

(** X13.  The list holds one descriptor for each entry of the range reply,
    in the order of the reply, each with the member as its key and the
    score as its next fire time; the direction flag chooses between the
    two range queries on the index, from 0 to -1 descending by default. *)
Theorem getJobSchedulers_in_reply_order codec prefix client start end_ asc
    entries :
  (if default false asc
   then zrange client (keys_repeat prefix) (default 0 start)
          (default (-1) end_)
   else zrevrange client (keys_repeat prefix) (default 0 start)
          (default (-1) end_))
  = withScores entries ->
  getJobSchedulers codec prefix client start end_ asc
  = Promise_all
      (map (fun entry =>
              getSchedulerData codec prefix client (fst entry)
                (Some (Number (snd entry))))
         entries)
  /\ forall ds,
      getJobSchedulers codec prefix client start end_ asc = Ok ds ->
      map json_key ds = map fst entries
      /\ map json_next ds = map (fun entry => Some (Number (snd entry)))
                              entries.
Proof.
  intros Hreply.
  assert (Heq : getJobSchedulers codec prefix client start end_ asc
                = Promise_all
                    (map (fun entry =>
                            getSchedulerData codec prefix client (fst entry)
                              (Some (Number (snd entry))))
                       entries)).
  { unfold getJobSchedulers. cbv zeta. rewrite Hreply.
    rewrite schedulersOf_withScores. reflexivity. }
  split; [exact Heq|]. intros ds Hds. rewrite Heq in Hds.
  apply (Promise_all_Ok _ json_key json_next fst
           (fun entry => Some (Number (snd entry))) _ _) in Hds;
    [exact Hds|].
  intros a d Ha. exact (transformSchedulerData_key_next _ _ _ _ _ Ha).
Qed.

(** X14.  A member of the index whose hash is gone is listed all the same:
    the empty object that the client gives for it decodes, without a
    throw and without looking into the key, to a descriptor that has the
    key and the next fire time and nothing else. *)
Theorem getSchedulerData_missing_hash codec prefix client key next :
  hgetall client (toKey prefix ("repeat:" +:+ key)) = ∅ ->
  getSchedulerData codec prefix client key next
  = Ok (mkSchedulerJson key None None None None None None None next).
Proof.
  intros Hh. unfold getSchedulerData. rewrite Hh.
  unfold transformSchedulerData. rewrite !lookup_empty. reflexivity.
Qed.

Lemma pretty_truthy (n : Z) : truthy (Some (pretty n)) = true.
Proof.
  pose proof (parseInt_pretty n) as H.
  destruct (pretty n) as [|c s]; [discriminate | reflexivity].
Qed.

(** X15.  When the script finds no hash for an id, [getScheduler] does not
    throw and decodes the id as a legacy key; the next fire time is the
    score the script replied, parsed, or null when it replied none. *)
Theorem getScheduler_without_hash codec getJobScheduler array2obj key
    (score : option Z) :
  getJobScheduler key = (None, pretty <$> score) ->
  getScheduler codec getJobScheduler array2obj key
  = Ok (keyToData key (Number <$> score)).
Proof.
  intros Hreply. unfold getScheduler. rewrite Hreply.
  destruct score as [n|]; cbn [fmap option_fmap option_map].
  - rewrite pretty_truthy. unfold parseIntOf. cbn [default from_option id].
    rewrite parseInt_pretty. reflexivity.
  - reflexivity.
Qed.

(** ** The telemetry options of the instance *)

(** X16.  The telemetry options written on the instance: without a
    propagated context they are those of the template; with one, the
    metadata given in the template wins, and failing that the context is
    propagated unless [omitContext] is set, in which case the metadata is
    [false]. *)
Theorem instance_telemetry this id r jobName data opts override w out w'
    schedule job :
  upsertJobScheduler this id r jobName data opts override w = (out, w') ->
  events w'
  = (events w ++ [ClientAwaited; Executed [schedule; AddJob job]])%list ->
  let src := match tracer this with Some src => src | None => None end in
  let given :=
    match telemetry opts with Some t => metadata t | None => None end in
  let omit :=
    match telemetry opts with Some t => omitContext t | None => None end in
  (truthy src = false -> telemetry (job_opts job) = telemetry opts)
  /\ (forall s, src = Some s -> truthy s = true ->
      telemetry (job_opts job)
      = Some
          (mkTelemetry
             (Some
                (if truthy given then default MetaFalse given
                 else if truthy omit then MetaFalse else MetaString s))
             omit)).
Proof.
  intros Hrun Hev src given omit.
  destruct (upsert_executes _ _ _ _ _ _ _ _ _ _ _ Hrun Hev)
    as (next & off & c & _ & _ & _ & _ & _ & [= -> ->] & _).
  cbn [nextJob job_opts telemetry instanceOptions withRepeatAndTelemetry].
  fold src. unfold propagatedTelemetry. split.
  - intros Hsrc. destruct src as [s|]; [|reflexivity].
    change (truthy s = false) in Hsrc. rewrite Hsrc. reflexivity.
  - intros s -> Hs. rewrite Hs. fold given. fold omit.
    destruct given as [m|].
    + change (truthy (Some m)) with (truthy m).
      destruct (truthy m) eqn:Hm.
      * cbn. rewrite Hm. reflexivity.
      * destruct (truthy omit) eqn:Ho; cbn; rewrite ?Ho, ?Hs; reflexivity.
    + change (truthy (@None Metadata)) with false. cbv iota.
      destruct (truthy omit) eqn:Ho; cbn; rewrite ?Ho, ?Hs; reflexivity.
Qed.

(** ** Decoding a definition hash *)

Lemma stringOrNull_Some x s :
  stringOrNull x = Some s <-> x = Some s /\ s <> EmptyString.
Proof.
  unfold stringOrNull. destruct x as [t|]; [|split; [discriminate | intros [[=] _]]].
  unfold truthy, truthy_string. destruct (String.eqb_spec t EmptyString) as [->|Hne]; simpl.
  - split; [discriminate | intros [[= <-] H]; done].
  - split; [intros [= <-]; auto | intros [[= <-] _]; reflexivity].
Qed.

(** X17.  A definition hash decodes field by field: the name as it is, the
    end date as a number, the time zone, the pattern and the interval as
    strings, where an empty string or an end date of 0 (or one that is no
    number) gives null; the key never contributes an id.  The template is
    absent exactly when the hash has neither data nor options, and the
    decoding throws only what the codec throws. *)
Theorem transformSchedulerData_of_hash codec key (hash : gmap string string)
    next :
  (forall d,
      transformSchedulerData codec key (Some hash) next = Ok d ->
      json_key d = key /\ json_next d = next
      /\ json_name d = hash !! "name"
      /\ json_id d = None
      /\ (forall n, json_endDate d = Some n <->
                    parseIntOf (hash !! "endDate") = Number n /\ n <> 0)
      /\ (forall s, json_tz d = Some s <->
                    hash !! "tz" = Some s /\ s <> EmptyString)
      /\ (forall s, json_pattern d = Some s <->
                    hash !! "pattern" = Some s /\ s <> EmptyString)
      /\ (forall s, json_every d = Some s <->
                    hash !! "every" = Some s /\ s <> EmptyString)
      /\ (json_template d = None <->
          truthy (hash !! "data") = false /\ truthy (hash !! "opts") = false))
  /\ (forall e,
        transformSchedulerData codec key (Some hash) next = Throw e ->
        (exists text, hash !! "data" = Some text
                      /\ JSON_parse codec text = Throw e)
        \/ (exists text, hash !! "opts" = Some text
                         /\ optsFromJSON codec text = Throw e)).
Proof.
  assert (Hnum : forall x n,
    numberOrNull x = Some n <-> x = Number n /\ n <> 0).
  { intros [m|] n; simpl; [|split; [discriminate | intros [[=] _]]].
    unfold truthy, truthy_number. destruct (Z.eqb_spec m 0) as [->|Hne]; simpl.
    - split; [discriminate | intros [[= <-] H]; done].
    - split; [intros [= <-]; auto | intros [[= <-] _]; reflexivity]. }
  unfold transformSchedulerData, getTemplateFromJSON. split.
  - intros d.
    destruct (truthy (hash !! "data")) eqn:Hd,
      (truthy (hash !! "opts")) eqn:Ho; cbn [orb];
      repeat match goal with
             | |- context [JSON_parse ?c ?t] =>
                 destruct (JSON_parse c t) eqn:?
             | |- context [optsFromJSON ?c ?t] =>
                 destruct (optsFromJSON c t) eqn:?
             end;
      try discriminate; intros [= <-]; cbn;
      refine (conj eq_refl (conj eq_refl (conj eq_refl (conj eq_refl
                (conj (fun n => Hnum _ n)
                   (conj (fun s => stringOrNull_Some _ s)
                      (conj (fun s => stringOrNull_Some _ s)
                         (conj (fun s => stringOrNull_Some _ s) _))))))));
      first [ split; [discriminate | intros [? ?]; discriminate]
            | split; auto ].
  - intros e.
    destruct (truthy (hash !! "data")) eqn:Hd,
      (truthy (hash !! "opts")) eqn:Ho; cbn [orb];
      try discriminate;
      destruct (hash !! "data") as [dt|] eqn:Hdt,
        (hash !! "opts") as [ot|] eqn:Hot; try discriminate;
      cbn [default from_option];
      repeat match goal with
             | |- context [JSON_parse ?c ?t] =>
                 destruct (JSON_parse c t) eqn:?
             | |- context [optsFromJSON ?c ?t] =>
                 destruct (optsFromJSON c t) eqn:?
             end;
      try discriminate; intros [= <-]; eauto.
Qed.

(** ** The pattern form *)

(** X18.  In the pattern form without [immediately], a scheduler with the
    default strategy fires at the occurrence that the parser gives for the
    pattern, the repeat options as they are and, as current date, now moved
    up to the start date and the previous fire time.  The strategy does not
    read the clock: the timestamp of the instance is the second reading of
    the call.  The offset of the options is passed on as it is. *)
Theorem pattern_fires_at_next_occurrence parse queueName tracing id r jobName
    data opts override w n :
  let this := constructor parse queueName None tracing in
  validationError r = None ->
  limitReached r = false ->
  endDateReached r (reading (clock w)) = false ->
  truthy (every r) = false ->
  truthy (immediately r) = false ->
  parse (pattern r) r (alignedNow r opts (reading (clock w)))
  = Interval (Some n) ->
  n <> 0 ->
  exists out w' job rp,
    upsertJobScheduler this id r jobName data opts override w = (out, w')
    /\ events w'
       = (events w
          ++ [ClientAwaited;
              Executed
                [scheduleCommand override id n data opts jobName r;
                 AddJob job]])%list
    /\ prevMillis (job_opts job) = Some n
    /\ timestamp (job_opts job) = Some (reading (tick (clock w)))
    /\ repeat (job_opts job) = Some rp
    /\ offset rp = offset r.
Proof.
  intros this Hv Hl He Hevery Hi Hp Hn.
  rewrite (upsert_pattern _ _ _ _ _ _ _ _ Hv Hl He Hevery).
  change (repeatStrategy this) with (defaultRepeatStrategy parse).
  rewrite (defaultRepeatStrategy_parsed _ _ _ _ _ _ Hp), Hi.
  cbv beta iota zeta.
  assert (truthy n = true) as -> by (apply truthy_number_true; exact Hn).
  match goal with
  | |- context [trace ?t ?k ?o ?d (addNextJob ?mu _ _ ?off _ _ _ ?m) ?w1] =>
      destruct (trace t k o d (addNextJob mu id r off jobName data opts m) w1)
        as [out w'] eqn:Htr
  end.
  destruct (trace_addNextJob_outcome _ _ _ _ _ _ _ _ _ _ _ _ Htr)
    as (Hev & _ & _).
  eexists out, w', _, _. split; [reflexivity|]. split.
  { rewrite Hev. simpl. rewrite <- app_assoc. reflexivity. }
  repeat split.
Qed.

(** ** The further statements at work *)

Lemma upsert_outside_effects_witness :
  ((events (snd firstUpsert) = events (worldAt 1000 emptyStore)
    /\ store (snd firstUpsert) = store (worldAt 1000 emptyStore)
    /\ forall j, fst firstUpsert <> Ok (Some j))
   \/ (events (snd firstUpsert)
       = (events (worldAt 1000 emptyStore) ++ [ClientAwaited])%list
       /\ store (snd firstUpsert) = store (worldAt 1000 emptyStore)
       /\ fst firstUpsert = Ok None)
   \/ (exists next job,
          next <> 0
          /\ events (snd firstUpsert)
             = (events (worldAt 1000 emptyStore)
                ++ [ClientAwaited;
                    Executed
                      [scheduleCommand true "s1" next payload noOptions "j"
                         everySecond;
                       AddJob job]])%list
          /\ job_id job = Some (getSchedulerNextJobId "s1" next)
          /\ ((exists reply, fst firstUpsert = Ok (Some (setId job reply)))
              \/ (exists e, fst firstUpsert = Throw (transactionError "s1" e)))))
  /\ (console (snd firstUpsert) = console (worldAt 1000 emptyStore)
      \/ console (snd firstUpsert)
         = (console (worldAt 1000 emptyStore) ++ [immediatelyWarning])%list).
Proof.
  apply (upsert_outside_effects queue "s1" everySecond "j" payload noOptions
           true (worldAt 1000 emptyStore) (fst firstUpsert) (snd firstUpsert)).
  apply surjective_pairing.
Defined.

Lemma interval_ignores_strategy_witness :
  upsertJobScheduler
    (mkJobScheduler "q" (defaultRepeatStrategy minuteParser) None) "s1"
    everySecond "j" payload noOptions true (worldAt 1000 emptyStore)
  = upsertJobScheduler (mkJobScheduler "q" epochStrategy None) "s1"
      everySecond "j" payload noOptions true (worldAt 1000 emptyStore).
Proof.
  apply (interval_ignores_strategy "q" (defaultRepeatStrategy minuteParser)
           epochStrategy None "s1" everySecond "j" payload noOptions true
           (worldAt 1000 emptyStore)).
  reflexivity.
Defined.

Lemma secondOfTwo_executes :
  exists schedule job,
    events (snd secondOfTwoUpsert)
    = (events (worldAt 1500 emptyStore)
       ++ [ClientAwaited; Executed [schedule; AddJob job]])%list
    /\ lastInstance (snd secondOfTwoUpsert) = Some job.
Proof. eexists _, _. split; vm_compute; reflexivity. Qed.

Lemma instance_repeat_options_filtered_witness :
  exists job rp,
    lastInstance (snd immediateUpsert) = Some job
    /\ repeat (job_opts job) = Some rp
    /\ startDate rp = None /\ immediately rp = None
    /\ pattern rp = pattern everyMinuteNow /\ every rp = every everyMinuteNow
    /\ endDate rp = endDate everyMinuteNow /\ limit rp = limit everyMinuteNow
    /\ tz rp = tz everyMinuteNow
    /\ others (job_opts job) = others (withPrevMillis 5000)
    /\ job_name job = "j" /\ job_data job = payload.
Proof.
  assert (Hev : exists schedule job,
    events (snd immediateUpsert)
    = (events (worldAt 1000 emptyStore)
       ++ [ClientAwaited; Executed [schedule; AddJob job]])%list
    /\ lastInstance (snd immediateUpsert) = Some job).
  { eexists _, _. split; vm_compute; reflexivity. }
  destruct Hev as (schedule & job & Hev & Hlast).
  destruct (instance_repeat_options_filtered queue "s4" everyMinuteNow "j"
              payload (withPrevMillis 5000) true (worldAt 1000 emptyStore)
              (fst immediateUpsert) (snd immediateUpsert) schedule job
              (surjective_pairing _) Hev) as (rp & H).
  exists job, rp. split; [exact Hlast | exact H].
Defined.

Lemma executed_within_horizons_witness :
  exists job,
    lastInstance (snd secondOfTwoUpsert) = Some job
    /\ (forall l, limit secondOfTwo = Some l ->
          exists rp n,
            repeat (job_opts job) = Some rp /\ count rp = Some n /\ n <= l)
    /\ (forall e, endDate secondOfTwo = Some e ->
          reading (clock (worldAt 1500 emptyStore)) <= e).
Proof.
  destruct secondOfTwo_executes as (schedule & job & Hev & Hlast).
  exists job. split; [exact Hlast|].
  exact (executed_within_horizons queue "s1" secondOfTwo "j" payload
           (withPrevMillis 1000) false (worldAt 1500 emptyStore)
           (fst secondOfTwoUpsert) (snd secondOfTwoUpsert) schedule job
           (surjective_pairing _) Hev).
Defined.

Lemma iteration_count_runs_on_witness :
  exists job rp,
    lastInstance (snd secondOfTwoUpsert) = Some job
    /\ repeat (job_opts job) = Some rp
    /\ 1 <= iterationCount secondOfTwo
    /\ iterationCount rp = iterationCount secondOfTwo + 1.
Proof.
  destruct secondOfTwo_executes as (schedule & job & Hev & Hlast).
  destruct (iteration_count_runs_on queue "s1" secondOfTwo "j" payload
              (withPrevMillis 1000) false (worldAt 1500 emptyStore)
              (fst secondOfTwoUpsert) (snd secondOfTwoUpsert) schedule job
              (surjective_pairing _) Hev) as (rp & H).
  { intros c [= <-]. lia. }
  exists job, rp. split; [exact Hlast | exact H].
Defined.

Lemma getSchedulerNextJobId_inj_witness :
  "s1" = "s1" /\ 1000 = 1000.
Proof.
  apply (getSchedulerNextJobId_inj "s1" "s1" 1000 1000). reflexivity.
Defined.

Lemma interval_keeps_phase_witness :
  everyNextMillis 1000 1250 0 None = (1250, Some (1250 mod 1000))
  /\ 4700
     < fst (everyNextMillis 1000 4700 1250
              (snd (everyNextMillis 1000 1250 0 None)))
     <= 4700 + 1000 + 1250 mod 1000
  /\ (fst (everyNextMillis 1000 4700 1250
             (snd (everyNextMillis 1000 1250 0 None))) - 1250) mod 1000 = 0.
Proof.
  apply (interval_keeps_phase 1000 1250 4700 1250); [reflexivity|].
  discriminate.
Defined.

Lemma interval_fires_after_previous_witness :
  exists job next,
    lastInstance (snd secondOfTwoUpsert) = Some job
    /\ prevMillis (job_opts job) = Some next
    /\ 1000 < next
    /\ job_id job <> Some (getSchedulerNextJobId "s1" 1000).
Proof.
  destruct secondOfTwo_executes as (schedule & job & Hev & Hlast).
  destruct (interval_fires_after_previous queue "s1" secondOfTwo "j" payload
              (withPrevMillis 1000) false (worldAt 1500 emptyStore)
              (fst secondOfTwoUpsert) (snd secondOfTwoUpsert) schedule job
              1000 1000 (surjective_pairing _) Hev)
    as (next & _ & H); try reflexivity.
  { intros o [= <-]. lia. }
  exists job, next. split; [exact Hlast | exact H].
Defined.

Lemma span_only_on_success_witness :
  spans (snd tracedUpsert)
  = match fst tracedUpsert, tracer tracedQueue with
    | Ok (Some job), Some _ =>
        (spans (worldAt 1000 emptyStore)
         ++ [producerSpan tracedQueue "j" "s1" (job_id job)])%list
    | _, _ => spans (worldAt 1000 emptyStore)
    end.
Proof.
  apply (span_only_on_success tracedQueue "s1" everySecond "j" payload
           noOptions true (worldAt 1000 emptyStore)).
  apply surjective_pairing.
Defined.

Lemma upsert_store_afterwards_witness :
  (true = true ->
   forall job, fst firstUpsert = Ok (Some job) ->
     exists next,
       prevMillis (job_opts job) = Some next
       /\ index (store (snd firstUpsert)) !! "s1" = Some next
       /\ definitions (store (snd firstUpsert)) !! "s1"
          = Some
              (mkSchedulerDefinition
                 (mkSchedulerTemplate "j"
                    (if truthy (endDate everySecond)
                     then endDate everySecond else None) (tz everySecond)
                    (pattern everySecond) (every everySecond))
                 (default (JObject []) payload) noOptions)
       /\ job_id job = Some (getSchedulerNextJobId "s1" next)
       /\ delayedJobs (store (snd firstUpsert))
          !! getSchedulerNextJobId "s1" next = Some job)
  /\ (true = false ->
      definitions (store (snd firstUpsert))
      = definitions (store (worldAt 1000 emptyStore))).
Proof.
  apply (upsert_store_afterwards queue "s1" everySecond "j" payload noOptions
           true (worldAt 1000 emptyStore) (fst firstUpsert) (snd firstUpsert)).
  apply surjective_pairing.
Defined.

Lemma keyToData_legacy_key_witness :
  keyToData "report:42:1700:UTC:0 12 * * 1:5" None
  = mkSchedulerJson "report:42:1700:UTC:0 12 * * 1:5" (Some "report")
      (Some "42") (Some 1700) (Some "UTC") (Some "0 12 * * 1:5") None None
      None.
Proof.
  apply (keyToData_legacy_key "report" "42" 1700 "UTC" "0 12 * * 1:5" None);
    reflexivity.
Defined.

Lemma keyToData_bare_name_witness :
  keyToData "report" None
  = mkSchedulerJson "report" (Some "report") None None None None None None
      None.
Proof.
  apply (proj1 (keyToData_bare_name "report" None)). reflexivity.
Defined.

Lemma getJobSchedulers_in_reply_order_witness :
  getJobSchedulers strictCodec "bull:q" bareClient None None None
  = Promise_all
      (map (fun entry =>
              getSchedulerData strictCodec "bull:q" bareClient (fst entry)
                (Some (Number (snd entry))))
         [("s2", 3000); ("s1", 1000)])
  /\ exists ds,
      getJobSchedulers strictCodec "bull:q" bareClient None None None = Ok ds
      /\ map json_key ds = ["s2"; "s1"]
      /\ map json_next ds = [Some (Number 3000); Some (Number 1000)].
Proof.
  destruct (getJobSchedulers_in_reply_order strictCodec "bull:q" bareClient
              None None None [("s2", 3000); ("s1", 1000)] eq_refl)
    as [Heq Hds].
  split; [exact Heq|].
  eexists. split; [vm_compute; reflexivity|].
  apply Hds. vm_compute. reflexivity.
Defined.

Lemma getSchedulerData_missing_hash_witness :
  getSchedulerData strictCodec "bull:q" bareClient "a:b" (Some (Number 7))
  = Ok (mkSchedulerJson "a:b" None None None None None None None
          (Some (Number 7))).
Proof.
  apply (getSchedulerData_missing_hash strictCodec "bull:q" bareClient "a:b"
           (Some (Number 7))).
  reflexivity.
Defined.

Lemma getScheduler_without_hash_witness :
  getScheduler strictCodec (fun _ => (None, Some "1000")) (fun _ => ∅)
    "report:42"
  = Ok (keyToData "report:42" (Some (Number 1000))).
Proof.
  apply (getScheduler_without_hash strictCodec (fun _ => (None, Some "1000"))
           (fun _ => ∅) "report:42" (Some 1000)).
  reflexivity.
Defined.

Lemma instance_telemetry_witness :
  exists job,
    lastInstance (snd tracedUpsert) = Some job
    /\ (truthy (Some "ctx") = false ->
        telemetry (job_opts job) = telemetry noOptions)
    /\ (forall s, Some "ctx" = Some s -> truthy s = true ->
        telemetry (job_opts job)
        = Some (mkTelemetry (Some (MetaString s)) None)).
Proof.
  assert (Hev : exists schedule job,
    events (snd tracedUpsert)
    = (events (worldAt 1000 emptyStore)
       ++ [ClientAwaited; Executed [schedule; AddJob job]])%list
    /\ lastInstance (snd tracedUpsert) = Some job).
  { eexists _, _. split; vm_compute; reflexivity. }
  destruct Hev as (schedule & job & Hev & Hlast).
  exists job. split; [exact Hlast|].
  exact (instance_telemetry tracedQueue "s1" everySecond "j" payload noOptions
           true (worldAt 1000 emptyStore) (fst tracedUpsert)
           (snd tracedUpsert) schedule job (surjective_pairing _) Hev).
Defined.

Lemma transformSchedulerData_of_hash_witness :
  json_key decodedHash = "s1" /\ json_next decodedHash = None
  /\ json_name decodedHash = storedHash !! "name"
  /\ json_id decodedHash = None
  /\ (forall n, json_endDate decodedHash = Some n <->
                parseIntOf (storedHash !! "endDate") = Number n /\ n <> 0)
  /\ (forall s, json_tz decodedHash = Some s <->
                storedHash !! "tz" = Some s /\ s <> EmptyString)
  /\ (forall s, json_pattern decodedHash = Some s <->
                storedHash !! "pattern" = Some s /\ s <> EmptyString)
  /\ (forall s, json_every decodedHash = Some s <->
                storedHash !! "every" = Some s /\ s <> EmptyString)
  /\ (json_template decodedHash = None <->
      truthy (storedHash !! "data") = false
      /\ truthy (storedHash !! "opts") = false).
Proof.
  apply (proj1 (transformSchedulerData_of_hash strictCodec "s1" storedHash
                  None) decodedHash).
  vm_compute. reflexivity.
Defined.

Lemma pattern_fires_at_next_occurrence_witness :
  exists out w' job rp,
    upsertJobScheduler queue "s2" everyMinute "j" payload
      (withPrevMillis 5000) true (worldAt 1000 emptyStore) = (out, w')
    /\ events w'
       = [ClientAwaited;
          Executed
            [scheduleCommand true "s2" 60000 payload (withPrevMillis 5000) "j"
               everyMinute;
             AddJob job]]
    /\ prevMillis (job_opts job) = Some 60000
    /\ timestamp (job_opts job) = Some 1000
    /\ repeat (job_opts job) = Some rp
    /\ offset rp = offset everyMinute.
Proof.
  apply (pattern_fires_at_next_occurrence minuteParser "q" None "s2"
           everyMinute "j" payload (withPrevMillis 5000) true
           (worldAt 1000 emptyStore) 60000);
    try reflexivity.
  discriminate.
Defined.
